(** * Debug-log instrumentation scripts of pokemon-card-battle

    A shallow embedding of the three Python scripts
    [add_debug_final.py], [add_debug_logs.py] and
    [add_debug_logs_simple.py], together with the parts of the Python
    runtime they rely on: [str] operations, list indexing, the fragment
    of [re] their patterns use, and text-mode file access. *)

From Stdlib Require Import ZArith NArith String Ascii List Lia Bool.
From stdpp Require Import base gmap strings list.

Local Open Scope Z_scope.

(** A Python [str] is a sequence of Unicode code points. *)
Abbreviation str := (list N).

(** ** Python built-ins *)
Module Py.

(** Source literals are written as Rocq strings holding the UTF-8 bytes of
    the source file; [lit] decodes them to code points. [acc] is the value
    decoded so far and [need] the number of continuation bytes expected. *)
Fixpoint utf8_decode (acc : N) (need : nat) (bs : list N) : str :=
  match bs with
  | [] => []
  | b :: bs' =>
    match need with
    | O =>
      if (b <? 128)%N then b :: utf8_decode 0 0 bs'
      else if (b <? 224)%N then utf8_decode (b - 192) 1 bs'
      else if (b <? 240)%N then utf8_decode (b - 224) 2 bs'
      else utf8_decode (b - 240) 3 bs'
    | S O => (acc * 64 + (b - 128))%N :: utf8_decode 0 0 bs'
    | S k => utf8_decode (acc * 64 + (b - 128)) k bs'
    end
  end.

Definition lit (s : string) : str :=
  utf8_decode 0 0 (map N_of_ascii (list_ascii_of_string s)).

(** ['\n'] *)
Definition nl : N := 10%N.
(** ['\r'] *)
Definition cr : N := 13%N.

(** [str.isspace] for one code point, which is also what [\s] matches in a
    [str] pattern: the characters CPython's [Py_UNICODE_ISSPACE] accepts. *)
Definition is_space (c : N) : bool :=
  ((9 <=? c) && (c <=? 13) || (28 <=? c) && (c <=? 32)
   || (c =? 133) || (c =? 160) || (c =? 5760)
   || (8192 <=? c) && (c <=? 8202)
   || (c =? 8232) || (c =? 8233) || (c =? 8239) || (c =? 8287)
   || (c =? 12288))%N.

(** [a == b] on [str] *)
Fixpoint str_eqb (a b : str) : bool :=
  match a, b with
  | [], [] => true
  | x :: a', y :: b' => (x =? y)%N && str_eqb a' b'
  | _, _ => false
  end.

(** [s.startswith(p)] *)
Fixpoint startswith (p s : str) : bool :=
  match p, s with
  | [], _ => true
  | x :: p', y :: s' => (x =? y)%N && startswith p' s'
  | _ :: _, [] => false
  end.

(** [sub in s] *)
Fixpoint str_in (sub s : str) : bool :=
  startswith sub s ||
  match s with
  | [] => false
  | _ :: s' => str_in sub s'
  end.

(** [s.lstrip()], [s.rstrip()], [s.strip()] *)
Fixpoint lstrip (s : str) : str :=
  match s with
  | c :: s' => if is_space c then lstrip s' else s
  | [] => []
  end.

Definition rstrip (s : str) : str := rev (lstrip (rev s)).

Definition strip (s : str) : str := rstrip (lstrip s).

(** [s.split(sep)] for a one-character separator: never the empty list. *)
Fixpoint split (sep : N) (s : str) : list str :=
  match s with
  | [] => [[]]
  | c :: s' =>
    if (c =? sep)%N then [] :: split sep s'
    else match split sep s' with
         | h :: t => (c :: h) :: t
         | [] => [[c]]
         end
  end.

(** [sep.join(ls)] *)
Fixpoint join (sep : str) (ls : list str) : str :=
  match ls with
  | [] => []
  | [l] => l
  | l :: ls' => l ++ sep ++ join sep ls'
  end.

(** The text of a triple-quoted literal, given line by line. *)
Definition text (ls : list string) : str := join [nl] (map lit ls).

(** [l[i]]: a negative index counts from the end; [None] is [IndexError]. *)
Definition index {A} (l : list A) (i : Z) : option A :=
  let n := Z.of_nat (length l) in
  if (0 <=? i) && (i <? n) then l !! Z.to_nat i
  else if (- n <=? i) && (i <? 0) then l !! Z.to_nat (n + i)
  else None.

(** [l.insert(i, x)]: the index is taken from the end when negative and
    clamped to [0 .. len(l)]. *)
Definition insert {A} (l : list A) (i : Z) (x : A) : list A :=
  let n := Z.of_nat (length l) in
  let j := if i <? 0 then Z.max 0 (i + n) else Z.min i n in
  take (Z.to_nat j) l ++ x :: drop (Z.to_nat j) l.

(** [l.append(x)] *)
Definition append {A} (l : list A) (x : A) : list A := l ++ [x].

End Py.

(** ** Outcomes, the world and the I/O monad *)

(** The exceptions these scripts can meet. [OSError] (Python's [IOError])
    carries the path whose [open] failed. *)
Inductive exn : Type :=
  | IndexError
  | OSError (path : string).

(** The outcome of an evaluation that may raise. *)
Inductive res (A : Type) : Type :=
  | Return (a : A)
  | Raise (e : exn).
Arguments Return {A} a.
Arguments Raise {A} e.

Definition res_bind {A B} (c : res A) (k : A -> res B) : res B :=
  match c with
  | Return a => k a
  | Raise e => Raise e
  end.

Declare Scope res_scope.
Delimit Scope res_scope with res.
Notation "'let!' x ':=' c 'in' k" := (res_bind c (fun x => k))
  (at level 10, x name, c at level 100, k at level 200) : res_scope.

(** [a and b] where evaluating [b] may raise: [b] is not evaluated when [a]
    is false. *)
Definition and_then (a : bool) (b : res bool) : res bool :=
  if a then b else Return false.

(** [l[i]] as an evaluation step. *)
Definition getitem {A} (l : list A) (i : Z) : res A :=
  match Py.index l i with
  | Some x => Return x
  | None => Raise IndexError
  end.

Module IO.

Inductive platform : Type := Posix | Win32.

(** [os.linesep] *)
Definition linesep (p : platform) : str :=
  match p with
  | Posix => [Py.nl]
  | Win32 => [Py.cr; Py.nl]
  end.

(** What the scripts can observe and change. [files] holds the decoded
    characters of every existing file, with the line endings the file has
    on disk; a path in [readonly] cannot be opened for writing. [stdout]
    collects the argument of every [print], [written] the path of every
    file opened for writing, both in order. *)
Record world : Type := World {
  platform_of : platform;
  files : gmap string str;
  readonly : gset string;
  stdout : list str;
  written : list string
}.

Definition M (A : Type) : Type := world -> res A * world.

Definition ret {A} (a : A) : M A := fun w => (Return a, w).

Definition raise {A} (e : exn) : M A := fun w => (Raise e, w).

Definition bind {A B} (c : M A) (k : A -> M B) : M B :=
  fun w =>
    match c w with
    | (Return a, w') => k a w'
    | (Raise e, w') => (Raise e, w')
    end.

Definition lift {A} (r : res A) : M A := fun w => (r, w).

(** Reading in text mode with [newline=None]: every ["\r\n"] and every
    lone ["\r"] arrives as ["\n"]. *)
Fixpoint universal_newlines (s : str) : str :=
  match s with
  | [] => []
  | c :: s' =>
    if (c =? Py.cr)%N then
      Py.nl :: match s' with
               | d :: s'' =>
                 if (d =? Py.nl)%N then universal_newlines s''
                 else universal_newlines s'
               | [] => []
               end
    else c :: universal_newlines s'
  end.

(** Writing in text mode with [newline=None]: every ["\n"] leaves as
    [os.linesep]. *)
Definition write_newlines (p : platform) (s : str) : str :=
  flat_map (fun c => if (c =? Py.nl)%N then linesep p else [c]) s.

(** [with open(path, 'r', encoding='utf-8') as f: f.read()] *)
Definition read_text (path : string) : M str :=
  fun w =>
    match files w !! path with
    | Some raw => (Return (universal_newlines raw), w)
    | None => (Raise (OSError path), w)
    end.

(** [with open(path, 'w', encoding='utf-8') as f: f.write(content)] *)
Definition write_text (path : string) (content : str) : M unit :=
  fun w =>
    if bool_decide (path ∈ readonly w) then (Raise (OSError path), w)
    else (Return tt,
          {| platform_of := platform_of w;
             files := <[path := write_newlines (platform_of w) content]> (files w);
             readonly := readonly w;
             stdout := stdout w;
             written := written w ++ [path] |}).

(** [print(s)] *)
Definition print (s : str) : M unit :=
  fun w =>
    (Return tt,
     {| platform_of := platform_of w;
        files := files w;
        readonly := readonly w;
        stdout := stdout w ++ [s];
        written := written w |}).

End IO.

Declare Scope io_scope.
Delimit Scope io_scope with io.
Notation "'let!' x ':=' c 'in' k" := (IO.bind c (fun x => k))
  (at level 10, x name, c at level 100, k at level 200) : io_scope.
Notation "c ;; k" := (IO.bind c (fun _ => k))
  (at level 100, k at level 200, right associativity) : io_scope.

(** ** The fragment of [re] the scripts use *)
Module Re.

(** A pattern is a sequence of items: literal text (escaped characters
    included), [\s+], [.*], and the parentheses of capturing groups. Groups
    never nest in the scripts' patterns, so they close in the order of
    their numbers. *)
Inductive item : Type :=
  | Lit (t : str)
  | Spaces1
  | AnyStar
  | GOpen
  | GClose.

(** A replacement template: literal text and [\n] group references. *)
Inductive titem : Type :=
  | TLit (t : str)
  | TGroup (n : nat).

(** Matching [p] at the front of [s], which starts at offset [pos] of the
    match attempt. Quantifiers are greedy and backtrack: [\s+] and [.*]
    first try to take one more character and fall back to the rest of the
    pattern. [opens] is the stack of offsets of the groups still open,
    [caps] the spans of the groups closed so far, last first. The result
    is the end offset and the spans of groups 1, 2, ... *)
Fixpoint re_match (p : list item) (s : str) (pos : nat)
    (opens : list nat) (caps : list (nat * nat)) {struct p}
    : option (nat * list (nat * nat)) :=
  match p with
  | [] => Some (pos, rev caps)
  | Lit t :: p' =>
    if Py.startswith t s
    then re_match p' (drop (length t) s) (pos + length t)%nat opens caps
    else None
  | Spaces1 :: p' =>
    (fix plus (s : str) (pos : nat) {struct s} :=
       match s with
       | c :: s' =>
         if Py.is_space c then
           match plus s' (S pos) with
           | Some r => Some r
           | None => re_match p' s' (S pos) opens caps
           end
         else None
       | [] => None
       end) s pos
  | AnyStar :: p' =>
    (fix star (s : str) (pos : nat) {struct s} :=
       match s with
       | c :: s' =>
         if (c =? Py.nl)%N then re_match p' s pos opens caps
         else match star s' (S pos) with
              | Some r => Some r
              | None => re_match p' s pos opens caps
              end
       | [] => re_match p' s pos opens caps
       end) s pos
  | GOpen :: p' => re_match p' s pos (pos :: opens) caps
  | GClose :: p' =>
    match opens with
    | o :: opens' => re_match p' s pos opens' ((o, pos) :: caps)
    | [] => None
    end
  end.

(** [m.group(n)] for a match that starts at the front of [s]; a group
    that took no part expands to the empty string. *)
Definition group (caps : list (nat * nat)) (s : str) (n : nat) : str :=
  match n with
  | O => []
  | S k =>
    match caps !! k with
    | Some (b, e) => take (e - b) (drop b s)
    | None => []
    end
  end.

(** [m.expand(template)] *)
Definition expand (tpl : list titem) (caps : list (nat * nat)) (s : str) : str :=
  flat_map (fun t => match t with
                     | TLit x => x
                     | TGroup n => group caps s n
                     end) tpl.

(** The [count] argument of [re.sub]: [0] replaces every match. *)
Definition limit_of (count : nat) : option nat :=
  match count with
  | O => None
  | S _ => Some count
  end.

Definition spend (limit : option nat) : option nat :=
  match limit with
  | Some n => Some (pred n)
  | None => None
  end.

(** The scan of [re.sub]: at each offset, leftmost first, try the pattern;
    a match is replaced by the expanded template and the scan resumes
    after it. [skip] counts the characters of the last match still to be
    stepped over. *)
Fixpoint sub_scan (p : list item) (tpl : list titem) (limit : option nat)
    (skip : nat) (s : str) {struct s} : str :=
  match skip with
  | S k =>
    match s with
    | _ :: s' => sub_scan p tpl limit k s'
    | [] => []
    end
  | O =>
    match (match limit with
           | Some O => None
           | _ => re_match p s 0 [] []
           end) with
    | Some (len, caps) =>
      expand tpl caps s ++
      match s with
      | c :: s' =>
        match len with
        | O => c :: sub_scan p tpl (spend limit) 0 s'
        | S k => sub_scan p tpl (spend limit) k s'
        end
      | [] => []
      end
    | None =>
      match s with
      | c :: s' => c :: sub_scan p tpl limit 0 s'
      | [] => []
      end
    end
  end.

(** [re.sub(pattern, repl, string, count)] *)
Definition sub (p : list item) (tpl : list titem) (s : str) (count : nat) : str :=
  sub_scan p tpl (limit_of count) 0 s.

End Re.

(** ** add_debug_final.py *)
Module Final.
Import Py.

(** *** [add_logs_to_game_js] *)

Definition game_file_path : string :=
  "c:/Projects/pokemon-card-battle/pokemon-card-battle/src/js/game.js".

(** The literals of the function: the marker of the guard, the anchors the
    [if]/[elif] chain looks for, and the lines it inserts. *)
Definition marker : str := lit "DEBUG: Click event occurred".

Definition anchor_dataset : str :=
  lit "const { owner, zone, cardId, index } = dataset;".
Definition anchor_processing : str := lit "if (this.state.isProcessing) {".
Definition anchor_player_turn : str :=
  lit "if (this.state.turnPlayer === 'player' && owner === 'cpu') {".
Definition anchor_info : str :=
  lit "if (zone === 'active' || zone === 'bench') {".
Definition anchor_cpu_turn : str :=
  lit "if (this.state.turnPlayer === 'cpu' && owner === 'player') {".
Definition anchor_phases : str := lit "// Handle different phases".

(** The block appended after the line that extracts the dataset. *)
Definition click_log : list str :=
  [lit "";
   lit "        // DEBUG: Click event occurred";
   lit "        console.log('Card Click:', {";
   lit "            owner,";
   lit "            zone,";
   lit "            cardId,";
   lit "            index,";
   lit "            currentPhase: this.state.phase,";
   lit "            turnPlayer: this.state.turnPlayer,";
   lit "            isProcessing: this.state.isProcessing";
   lit "        });"].

Definition log_processing : str :=
  lit "            console.log('BLOCKED: isProcessing = true');".
Definition log_player_turn : str :=
  lit "            console.log('BLOCKED: Player turn, CPU card clicked', { zone });".
Definition log_info : str :=
  lit "                console.log('INFO: Info display allowed for CPU active/bench');".
Definition log_cpu_turn : str :=
  lit "            console.log('BLOCKED: CPU turn, Player card clicked');".
Definition log_allowed : str :=
  lit "        console.log('ALLOWED: Click allowed, processing...');".

(** The body of the [while] loop for index [i], after [line = lines[i]]:
    [new_lines.append(line)], then the [if]/[elif] chain. *)
Definition game_step (lines : list str) (i : Z) (line : str)
    (new_lines : list str) : res (list str) :=
  (let new_lines := append new_lines line in
   let! c1 :=
     and_then (str_in anchor_dataset line)
       (let! prev := getitem lines (i - 1) in
        Return (str_in (lit "async _handleCardClick") prev)) in
   if c1 then Return (fold_left append click_log new_lines) else
   let! c2 :=
     and_then (str_eqb (strip line) anchor_processing)
       (and_then (0 <? i)
          (let! prev := getitem lines (i - 1) in
           Return (str_in (lit "処理中の場合はクリックを無視") prev))) in
   if c2 then Return (append new_lines log_processing) else
   let! c3 :=
     and_then (str_eqb (strip line) anchor_player_turn)
       (and_then (0 <? i)
          (let! prev := getitem lines (i - 1) in
           Return (str_in (lit "ターンプレイヤーと所有者のチェック") prev))) in
   if c3 then Return (append new_lines log_player_turn) else
   let! c4 :=
     and_then (str_eqb (strip line) anchor_info)
       (let! prev := getitem lines (i - 1) in
        Return (str_in (lit "CPUのカードは情報表示のみ許可") prev)) in
   if c4 then Return (append new_lines log_info) else
   if str_eqb (strip line) anchor_cpu_turn
   then Return (append new_lines log_cpu_turn) else
   let! c6 :=
     and_then (str_eqb (strip line) anchor_phases)
       (let! next := getitem lines (i + 1) in
        Return (str_in (lit "switch") next)) in
   if c6 then
     Return (insert (insert new_lines (-1) (lit "")) (-1) log_allowed)
   else Return new_lines)%res.

(** [while i < len(lines): ...; i += 1]. [rest] is [lines[i:]], whose head
    is [lines[i]]; the loop ends when it is empty. *)
Fixpoint game_loop (lines rest : list str) (i : Z) (new_lines : list str)
    : res (list str) :=
  match rest with
  | [] => Return new_lines
  | line :: rest' =>
    (let! new_lines := game_step lines i line new_lines in
     game_loop lines rest' (i + 1) new_lines)%res
  end.

Definition add_logs_to_game_js : IO.M unit :=
  (let file_path := game_file_path in
   let! content := IO.read_text file_path in
   if str_in marker content || str_in (lit "// " ++ marker) content
   then IO.print (lit "[SKIP] game.js already has debug logs")
   else
     let lines := split nl content in
     let! new_lines := IO.lift (game_loop lines lines 0 []) in
     let content := join [nl] new_lines in
     IO.write_text file_path content ;;
     IO.print (lit "[OK] Updated game.js"))%io.

(** *** [add_logs_to_view_js] *)

Definition view_file_path : string :=
  "c:/Projects/pokemon-card-battle/pokemon-card-battle/src/js/view.js".

Definition view_pattern : list Re.item :=
    [Re.GOpen;
     Re.Lit (lit "const cardInSlot = slotElement.querySelector('[data-card-id]');");
     Re.Spaces1;
     Re.Lit (lit "const cardId = cardInSlot ? (cardInSlot.dataset.runtimeId || cardInSlot.dataset.cardId) : null;");
     Re.GClose].
Definition view_replacement : list Re.titem :=
    [Re.TGroup 1;
     Re.TLit (text [""; ""; "            console.log('SLOT CLICKED (view.js):', {"; "                owner,"; "                zone,"; "                index,"; "                hasCard: !!cardId,"; "                cardId"; "            });"])].

Definition add_logs_to_view_js : IO.M unit :=
  (let file_path := view_file_path in
   let! content := IO.read_text file_path in
   if str_in (lit "SLOT CLICKED (view.js):") content
   then IO.print (lit "[SKIP] view.js already has debug logs")
   else
     let content := Re.sub view_pattern view_replacement content 1 in
     IO.write_text file_path content ;;
     IO.print (lit "[OK] Updated view.js"))%io.

(** *** [add_logs_to_interaction_js] *)

Definition interaction_file_path : string :=
  "c:/Projects/pokemon-card-battle/pokemon-card-battle/src/js/three/interaction.js".

Definition mouse_down_log : list str :=
  [lit "";
   lit "            console.log('THREE.JS MOUSE DOWN:', {";
   lit "                objectType: object?.userData?.type,";
   lit "                owner: object?.userData?.owner,";
   lit "                isDraggable: object?.userData?.isDraggable,";
   lit "                currentPlayer: this.gameState?.turnPlayer";
   lit "            });"].

Definition interaction_step (lines : list str) (i : Z) (line : str)
    (new_lines : list str) : res (list str) :=
  (let new_lines := append new_lines line in
   if str_in (lit "const object = this._findInteractiveParent(firstHit.object);") line
   then Return (fold_left append mouse_down_log new_lines)
   else
   let! c2 :=
     and_then
       (str_in (lit "if (this.gameState && this.gameState.turnPlayer !== 'player') {") line)
       (let! prev := getitem lines (i - 1) in
        Return (str_in (lit "CPUターン中はドラッグ不可") prev)) in
   if c2 then
     Return (append new_lines
               (lit "                    console.log('DRAG BLOCKED: Wrong turn', { owner: object.userData.owner, currentPlayer: this.gameState.turnPlayer });"))
   else Return new_lines)%res.

Fixpoint interaction_loop (lines rest : list str) (i : Z)
    (new_lines : list str) : res (list str) :=
  match rest with
  | [] => Return new_lines
  | line :: rest' =>
    (let! new_lines := interaction_step lines i line new_lines in
     interaction_loop lines rest' (i + 1) new_lines)%res
  end.

Definition add_logs_to_interaction_js : IO.M unit :=
  (let file_path := interaction_file_path in
   let! content := IO.read_text file_path in
   if str_in (lit "THREE.JS MOUSE DOWN:") content
   then IO.print (lit "[SKIP] interaction.js already has debug logs")
   else
     let lines := split nl content in
     let! new_lines := IO.lift (interaction_loop lines lines 0 []) in
     let content := join [nl] new_lines in
     IO.write_text file_path content ;;
     IO.print (lit "[OK] Updated interaction.js"))%io.

(** *** [__main__] *)

Definition main : IO.M unit :=
  (IO.print (lit "Adding debug logs...") ;;
   add_logs_to_game_js ;;
   add_logs_to_view_js ;;
   add_logs_to_interaction_js ;;
   IO.print (nl :: lit "[DONE] All debug logs added!") ;;
   IO.print (nl :: lit "Logs added:") ;;
   IO.print (lit "- Card Click: Basic click information") ;;
   IO.print (lit "- BLOCKED: When clicks are blocked and why") ;;
   IO.print (lit "- INFO: Additional information") ;;
   IO.print (lit "- ALLOWED: When clicks are allowed") ;;
   IO.print (lit "- SLOT CLICKED: When a slot is clicked in view") ;;
   IO.print (lit "- THREE.JS MOUSE DOWN: When 3D objects are clicked") ;;
   IO.print (lit "- DRAG BLOCKED: When dragging is blocked"))%io.

End Final.

(** ** add_debug_logs.py *)
Module Logs.
Import Py.

Definition game_file_path : string :=
  "c:/Projects/pokemon-card-battle/pokemon-card-battle/src/js/game.js".

Definition view_file_path : string :=
  "c:/Projects/pokemon-card-battle/pokemon-card-battle/src/js/view.js".

Definition interaction_file_path : string :=
  "c:/Projects/pokemon-card-battle/pokemon-card-battle/src/js/three/interaction.js".

Definition board_file_path : string :=
  "c:/Projects/pokemon-card-battle/pokemon-card-battle/src/js/view/board-event-handler.js".

(** *** [add_logs_to_game_js] *)

Definition game_pattern1 : list Re.item :=
    [Re.GOpen;
     Re.Lit (lit "async _handleCardClick(dataset) {");
     Re.Spaces1;
     Re.Lit (lit "const { owner, zone, cardId, index } = dataset;");
     Re.GClose;
     Re.Spaces1].

Definition game_replacement1 : list Re.titem :=
    [Re.TGroup 1;
     Re.TLit (text [""; ""; "        // 🔍 デバッグログ: クリックイベント発生"; "        console.log('🖱️ Card Click:', {"; "            owner,"; "            zone,"; "            cardId,"; "            index,"; "            currentPhase: this.state.phase,"; "            turnPlayer: this.state.turnPlayer,"; "            isProcessing: this.state.isProcessing"; "        });"; ""; "        "])].

Definition game_pattern2 : list Re.item :=
    [Re.GOpen;
     Re.Lit (lit "// 処理中の場合はクリックを無視");
     Re.Spaces1;
     Re.Lit (lit "if (this.state.isProcessing) {");
     Re.GClose].

Definition game_replacement2 : list Re.titem :=
    [Re.TGroup 1;
     Re.TLit (text [""; "            console.log('⛔ Click blocked: isProcessing = true');"])].

Definition game_pattern3 : list Re.item :=
    [Re.GOpen;
     Re.Lit (lit "// ターンプレイヤーと所有者のチェック（情報表示を除く）");
     Re.Spaces1;
     Re.Lit (lit "if (this.state.turnPlayer === 'player' && owner === 'cpu') {");
     Re.GClose].

Definition game_replacement3 : list Re.titem :=
    [Re.TGroup 1;
     Re.TLit (text [""; "            console.log('⛔ Click blocked: Player turn, CPU card clicked', { zone });"])].

Definition game_pattern4 : list Re.item :=
    [Re.GOpen;
     Re.Lit (lit "// CPUのカードは情報表示のみ許可（アクティブ・ベンチのみ）");
     Re.Spaces1;
     Re.Lit (lit "if (zone === 'active' || zone === 'bench') {");
     Re.GClose].

Definition game_replacement4 : list Re.titem :=
    [Re.TGroup 1;
     Re.TLit (text [""; "                console.log('ℹ️ Info display allowed for CPU active/bench');"])].

Definition game_pattern5 : list Re.item :=
    [Re.GOpen;
     Re.Lit (lit "if (this.state.turnPlayer === 'cpu' && owner === 'player') {");
     Re.Spaces1;
     Re.Lit (lit "// CPUターン中はプレイヤーカードをクリック不可");
     Re.GClose].

Definition game_replacement5 : list Re.titem :=
    [Re.TGroup 1;
     Re.TLit (text [""; "            console.log('⛔ Click blocked: CPU turn, Player card clicked');"])].

Definition game_pattern6 : list Re.item :=
    [Re.GOpen;
     Re.Lit [Py.nl];
     Re.Spaces1;
     Re.Lit (lit "// Handle different phases");
     Re.Spaces1;
     Re.Lit (lit "switch (this.state.phase) {");
     Re.GClose].

Definition game_replacement6 : list Re.titem :=
    [Re.TLit (text [""; ""; "        console.log('✅ Click allowed, processing...');"; ""]);
     Re.TGroup 1].

(** The six [content = re.sub(...)] assignments, in order. *)
Definition game_subs (content : str) : str :=
  let content := Re.sub game_pattern1 game_replacement1 content 0 in
  let content := Re.sub game_pattern2 game_replacement2 content 0 in
  let content := Re.sub game_pattern3 game_replacement3 content 0 in
  let content := Re.sub game_pattern4 game_replacement4 content 0 in
  let content := Re.sub game_pattern5 game_replacement5 content 0 in
  let content := Re.sub game_pattern6 game_replacement6 content 0 in
  content.

Definition add_logs_to_game_js : IO.M unit :=
  (let file_path := game_file_path in
   let! content := IO.read_text file_path in
   let content := game_subs content in
   IO.write_text file_path content ;;
   IO.print (lit "✅ Updated " ++ lit file_path))%io.

(** *** [add_logs_to_view_js] *)

Definition view_pattern : list Re.item :=
    [Re.GOpen;
     Re.Lit (lit "const cardInSlot = slotElement.querySelector('[data-card-id]');");
     Re.Spaces1;
     Re.Lit (lit "const cardId = cardInSlot ? (cardInSlot.dataset.runtimeId || cardInSlot.dataset.cardId) : null;");
     Re.GClose].

Definition view_replacement : list Re.titem :=
    [Re.TGroup 1;
     Re.TLit (text [""; ""; "            console.log('🎯 Slot clicked (view.js):', {"; "                owner,"; "                zone,"; "                index,"; "                hasCard: !!cardId,"; "                cardId"; "            });"])].

Definition add_logs_to_view_js : IO.M unit :=
  (let file_path := view_file_path in
   let! content := IO.read_text file_path in
   let content := Re.sub view_pattern view_replacement content 0 in
   IO.write_text file_path content ;;
   IO.print (lit "✅ Updated " ++ lit file_path))%io.

(** *** [add_logs_to_interaction_js] *)

Definition interaction_pattern : list Re.item :=
    [Re.GOpen;
     Re.Lit (lit "const object = this._findInteractiveParent(firstHit.object);");
     Re.GClose;
     Re.Spaces1;
     Re.GOpen;
     Re.Lit (lit "// ドラッグ可能なオブジェクト（カード）のみ");
     Re.GClose].

Definition interaction_replacement : list Re.titem :=
    [Re.TGroup 1;
     Re.TLit (text [""; ""; "            console.log('🖱️ Three.js Mouse Down:', {"; "                objectType: object?.userData?.type,"; "                owner: object?.userData?.owner,"; "                isDraggable: object?.userData?.isDraggable,"; "                currentPlayer: this.gameState?.turnPlayer"; "            });"; ""; "            "]);
     Re.TGroup 2].

Definition interaction_pattern2 : list Re.item :=
    [Re.GOpen;
     Re.Lit (lit "// ターンチェック: CPUターン中はドラッグ不可");
     Re.Spaces1;
     Re.Lit (lit "if (this.gameState && this.gameState.turnPlayer !== 'player') {");
     Re.GClose].

Definition interaction_replacement2 : list Re.titem :=
    [Re.TGroup 1;
     Re.TLit (text [""; "                    console.log('⛔ Drag blocked: Wrong turn', { owner: object.userData.owner, currentPlayer: this.gameState.turnPlayer });"])].

Definition add_logs_to_interaction_js : IO.M unit :=
  (let file_path := interaction_file_path in
   let! content := IO.read_text file_path in
   let content := Re.sub interaction_pattern interaction_replacement content 0 in
   let content := Re.sub interaction_pattern2 interaction_replacement2 content 0 in
   IO.write_text file_path content ;;
   IO.print (lit "✅ Updated " ++ lit file_path))%io.

(** *** [add_logs_to_board_event_handler_js] *)

Definition board_pattern : list Re.item :=
    [Re.Lit (lit "console.log('🖱️ BoardEventHandler: disabled, ignoring');")].

Definition board_replacement : list Re.titem :=
    [Re.TLit (lit "console.log('⛔ BoardEventHandler: disabled');")].

(** [pattern2] and [replacement2] are assigned but never passed to
    [re.sub]. *)
Definition board_pattern2 : list Re.item :=
    [Re.GOpen;
     Re.Lit (lit "_handleClick(event) {");
     Re.Spaces1;
     Re.GClose;
     Re.GOpen;
     Re.Lit (lit "//");
     Re.AnyStar;
     Re.Spaces1;
     Re.Lit (lit "console.log");
     Re.AnyStar;
     Re.Spaces1;
     Re.Spaces1;
     Re.Lit (lit "if (!this.isEnabled) {");
     Re.GClose].

Definition board_replacement2 : list Re.titem :=
    [Re.TGroup 1;
     Re.TLit (text ["if (!this.isEnabled) {"; "            console.log('⛔ BoardEventHandler: disabled');"; "            return;"; "        }"; ""; "        console.log('🎯 BoardEventHandler click:', {"; "            isEnabled: this.isEnabled,"; "            target: event.target.className"; "        });"; ""; "        // カードスロットを探す"; "        const slot = this._findCardSlot(event.target);"; "        console.log('🖱️ BoardEventHandler: found slot?', slot);"; ""; "        if (!slot) {"])].

Definition add_logs_to_board_event_handler_js : IO.M unit :=
  (let file_path := board_file_path in
   let! content := IO.read_text file_path in
   if str_in (lit "⛔ BoardEventHandler: disabled") content
   then IO.print (lit "ℹ️  " ++ lit file_path ++ lit " already has debug logs")
   else
     let content := Re.sub board_pattern board_replacement content 0 in
     IO.write_text file_path content ;;
     IO.print (lit "✅ Updated " ++ lit file_path))%io.

(** *** [__main__] *)

Definition main : IO.M unit :=
  (IO.print (lit "Adding debug logs to click handling functions...") ;;
   add_logs_to_game_js ;;
   add_logs_to_view_js ;;
   add_logs_to_interaction_js ;;
   add_logs_to_board_event_handler_js ;;
   IO.print (nl :: lit "[OK] All debug logs added successfully!") ;;
   IO.print (nl :: lit "To test:") ;;
   IO.print (lit "1. Restart the development server") ;;
   IO.print (lit "2. Open the game in browser") ;;
   IO.print (lit "3. Check console for debug logs when clicking cards"))%io.

End Logs.

(** ** add_debug_logs_simple.py *)
Module Simple.
Import Py.

Definition game_file_path : string :=
  "c:/Projects/pokemon-card-battle/pokemon-card-battle/src/js/game.js".

Definition view_file_path : string :=
  "c:/Projects/pokemon-card-battle/pokemon-card-battle/src/js/view.js".

Definition interaction_file_path : string :=
  "c:/Projects/pokemon-card-battle/pokemon-card-battle/src/js/three/interaction.js".

(** *** [add_logs_to_game_js] *)

Definition game_pattern1 : list Re.item :=
    [Re.GOpen;
     Re.Lit (lit "async _handleCardClick(dataset) {");
     Re.Spaces1;
     Re.Lit (lit "const { owner, zone, cardId, index } = dataset;");
     Re.GClose;
     Re.Spaces1].

Definition game_replacement1 : list Re.titem :=
    [Re.TGroup 1;
     Re.TLit (text [""; ""; "        // DEBUG: Click event occurred"; "        console.log('Card Click:', {"; "            owner,"; "            zone,"; "            cardId,"; "            index,"; "            currentPhase: this.state.phase,"; "            turnPlayer: this.state.turnPlayer,"; "            isProcessing: this.state.isProcessing"; "        });"; ""; "        "])].

Definition game_pattern2 : list Re.item :=
    [Re.GOpen;
     Re.Lit (lit "if (this.state.isProcessing) {");
     Re.GClose;
     Re.Spaces1;
     Re.GOpen;
     Re.Lit (lit "return;");
     Re.GClose].

Definition game_replacement2 : list Re.titem :=
    [Re.TGroup 1;
     Re.TLit (text [""; "            console.log('BLOCKED: isProcessing = true');"; "            "]);
     Re.TGroup 2].

Definition game_pattern3 : list Re.item :=
    [Re.GOpen;
     Re.Lit (lit "if (this.state.turnPlayer === 'player' && owner === 'cpu') {");
     Re.GClose].

Definition game_replacement3 : list Re.titem :=
    [Re.TGroup 1;
     Re.TLit (text [""; "            console.log('BLOCKED: Player turn, CPU card clicked', { zone });"])].

Definition game_pattern4 : list Re.item :=
    [Re.GOpen;
     Re.Lit (lit "// CPUのカードは情報表示のみ許可");
     Re.AnyStar;
     Re.Lit [Py.nl];
     Re.Spaces1;
     Re.Lit (lit "if (zone === 'active' || zone === 'bench') {");
     Re.GClose].

Definition game_replacement4 : list Re.titem :=
    [Re.TGroup 1;
     Re.TLit (text [""; "                console.log('INFO: Info display allowed for CPU active/bench');"])].

Definition game_pattern5 : list Re.item :=
    [Re.GOpen;
     Re.Lit (lit "if (this.state.turnPlayer === 'cpu' && owner === 'player') {");
     Re.GClose;
     Re.Spaces1;
     Re.GOpen;
     Re.Lit (lit "// CPUターン中はプレイヤーカードをクリック不可");
     Re.GClose].

Definition game_replacement5 : list Re.titem :=
    [Re.TGroup 1;
     Re.TLit (text [""; "            console.log('BLOCKED: CPU turn, Player card clicked');"; "            "]);
     Re.TGroup 2].

Definition game_pattern6 : list Re.item :=
    [Re.GOpen;
     Re.Lit (lit "// Handle different phases");
     Re.GClose].

Definition game_replacement6 : list Re.titem :=
    [Re.TLit (text ["console.log('ALLOWED: Click allowed, processing...');"; ""; "        "]);
     Re.TGroup 1].

(** The six [content = re.sub(...)] assignments, in order. *)
Definition game_subs (content : str) : str :=
  let content := Re.sub game_pattern1 game_replacement1 content 0 in
  let content := Re.sub game_pattern2 game_replacement2 content 1 in
  let content := Re.sub game_pattern3 game_replacement3 content 1 in
  let content := Re.sub game_pattern4 game_replacement4 content 0 in
  let content := Re.sub game_pattern5 game_replacement5 content 0 in
  let content := Re.sub game_pattern6 game_replacement6 content 1 in
  content.

Definition add_logs_to_game_js : IO.M unit :=
  (let file_path := game_file_path in
   let! content := IO.read_text file_path in
   let content := game_subs content in
   IO.write_text file_path content ;;
   IO.print (lit "[OK] Updated game.js"))%io.

(** *** [add_logs_to_view_js] *)

Definition view_pattern : list Re.item :=
    [Re.GOpen;
     Re.Lit (lit "const cardInSlot = slotElement.querySelector('[data-card-id]');");
     Re.Spaces1;
     Re.Lit (lit "const cardId = cardInSlot ? (cardInSlot.dataset.runtimeId || cardInSlot.dataset.cardId) : null;");
     Re.GClose].

Definition view_replacement : list Re.titem :=
    [Re.TGroup 1;
     Re.TLit (text [""; ""; "            console.log('SLOT CLICKED (view.js):', {"; "                owner,"; "                zone,"; "                index,"; "                hasCard: !!cardId,"; "                cardId"; "            });"])].

Definition add_logs_to_view_js : IO.M unit :=
  (let file_path := view_file_path in
   let! content := IO.read_text file_path in
   let content := Re.sub view_pattern view_replacement content 0 in
   IO.write_text file_path content ;;
   IO.print (lit "[OK] Updated view.js"))%io.

(** *** [add_logs_to_interaction_js] *)

Definition interaction_pattern : list Re.item :=
    [Re.GOpen;
     Re.Lit (lit "const object = this._findInteractiveParent(firstHit.object);");
     Re.GClose;
     Re.Spaces1;
     Re.GOpen;
     Re.Lit (lit "// ドラッグ可能なオブジェクト");
     Re.GClose].

Definition interaction_replacement : list Re.titem :=
    [Re.TGroup 1;
     Re.TLit (text [""; ""; "            console.log('THREE.JS MOUSE DOWN:', {"; "                objectType: object?.userData?.type,"; "                owner: object?.userData?.owner,"; "                isDraggable: object?.userData?.isDraggable,"; "                currentPlayer: this.gameState?.turnPlayer"; "            });"; ""; "            "]);
     Re.TGroup 2].

Definition interaction_pattern2 : list Re.item :=
    [Re.GOpen;
     Re.Lit (lit "if (this.gameState && this.gameState.turnPlayer !== 'player') {");
     Re.GClose;
     Re.Spaces1;
     Re.GOpen;
     Re.Lit (lit "return;");
     Re.GClose].

Definition interaction_replacement2 : list Re.titem :=
    [Re.TGroup 1;
     Re.TLit (text [""; "                    console.log('DRAG BLOCKED: Wrong turn', { owner: object.userData.owner, currentPlayer: this.gameState.turnPlayer });"; "                    "]);
     Re.TGroup 2].

Definition add_logs_to_interaction_js : IO.M unit :=
  (let file_path := interaction_file_path in
   let! content := IO.read_text file_path in
   let content := Re.sub interaction_pattern interaction_replacement content 0 in
   let content := Re.sub interaction_pattern2 interaction_replacement2 content 1 in
   IO.write_text file_path content ;;
   IO.print (lit "[OK] Updated interaction.js"))%io.

(** *** [__main__] *)

Definition main : IO.M unit :=
  (IO.print (lit "Adding debug logs...") ;;
   add_logs_to_game_js ;;
   add_logs_to_view_js ;;
   add_logs_to_interaction_js ;;
   IO.print (nl :: lit "[DONE] All debug logs added!"))%io.

End Simple.


(** ** Vocabulary of the properties *)

(** A world on a POSIX platform holding the given files, all writable,
    with nothing printed or written yet. *)
Definition posix_world (fs : list (string * str)) : IO.world :=
  {| IO.platform_of := IO.Posix;
     IO.files := list_to_map fs;
     IO.readonly := ∅;
     IO.stdout := [];
     IO.written := [] |}.

(** The functions that test for a marker before doing anything else, each
    with its target file, its marker and the message it prints when the
    marker is found. *)
Inductive guarded : IO.M unit -> string -> str -> str -> Prop :=
  | guarded_final_game :
      guarded Final.add_logs_to_game_js Final.game_file_path Final.marker
        (Py.lit "[SKIP] game.js already has debug logs")
  | guarded_final_view :
      guarded Final.add_logs_to_view_js Final.view_file_path
        (Py.lit "SLOT CLICKED (view.js):")
        (Py.lit "[SKIP] view.js already has debug logs")
  | guarded_final_interaction :
      guarded Final.add_logs_to_interaction_js Final.interaction_file_path
        (Py.lit "THREE.JS MOUSE DOWN:")
        (Py.lit "[SKIP] interaction.js already has debug logs")
  | guarded_logs_board :
      guarded Logs.add_logs_to_board_event_handler_js Logs.board_file_path
        (Py.lit "⛔ BoardEventHandler: disabled")
        (Py.lit "ℹ️  " ++ Py.lit Logs.board_file_path
           ++ Py.lit " already has debug logs").

(** The leading whitespace of a line. *)
Definition leading_ws (s : str) : str :=
  take (length s - length (Py.lstrip s)) s.

(** What one iteration of the game.js loop of add_debug_final.py can put
    around the line it copies: the lines placed before it and the lines
    placed after it. *)
Definition insertions : list (list str * list str) :=
  [([], []);
   ([], Final.click_log);
   ([], [Final.log_processing]);
   ([], [Final.log_player_turn]);
   ([], [Final.log_info]);
   ([], [Final.log_cpu_turn]);
   ([Py.lit ""; Final.log_allowed], [])].

(** The indentations the inserted lines have: none, 8, 12 or 16 spaces. *)
Definition fixed_indent (l : str) : bool :=
  existsb (fun n => Py.str_eqb (leading_ws l) (replicate n 32%N))
    [0; 8; 12; 16]%nat.

(** The number of lines that satisfy a test. *)
Definition count (P : str -> bool) (ls : list str) : nat :=
  length (List.filter P ls).

(** The characters of a text that are not whitespace, in order. *)
Definition visible (s : str) : str :=
  List.filter (fun c => negb (Py.is_space c)) s.

(** [s[b:e]] *)
Definition span (s : str) (be : nat * nat) : str :=
  take (be.2 - be.1) (drop be.1 s).

(** A pattern keeps the visible text when everything it matches outside
    its groups is whitespace: outside a group only [\s+] occurs. [inside]
    tells whether a group is open. *)
Fixpoint covering (inside : bool) (p : list Re.item) : bool :=
  match p with
  | [] => negb inside
  | Re.Lit _ :: p' => inside && covering inside p'
  | Re.AnyStar :: p' => inside && covering inside p'
  | Re.Spaces1 :: p' => covering inside p'
  | Re.GOpen :: p' => negb inside && covering true p'
  | Re.GClose :: p' => inside && covering false p'
  end.

(** The number of groups of a pattern. *)
Definition n_groups (p : list Re.item) : nat :=
  length (List.filter (fun i => match i with Re.GClose => true | _ => false end) p).

(** The groups a template refers to, in order. *)
Definition tpl_groups (tpl : list Re.titem) : list nat :=
  flat_map (fun t => match t with Re.TGroup n => [n] | Re.TLit _ => [] end) tpl.

(** A substitution keeps the visible text when its pattern is covering and
    its template gives back every group, once and in order. *)
Definition preserving (p : list Re.item) (tpl : list Re.titem) : bool :=
  covering false p
  && bool_decide (tpl_groups tpl = seq 1 (n_groups p)).

(** What a match attempt has established when it reaches offset [pos] of
    the text [s0]: the visible text before [pos], or before the group
    still open, is the visible text of the groups closed so far. *)
Definition match_state (inside : bool) (s0 : str) (pos : nat)
    (opens : list nat) (caps : list (nat * nat)) : Prop :=
  if inside then
    exists o, opens = [o] /\ (o <= pos)%nat
              /\ visible (take o s0) = flat_map (fun be => visible (span s0 be)) (rev caps)
  else
    opens = []
    /\ visible (take pos s0) = flat_map (fun be => visible (span s0 be)) (rev caps).

(** The targets of a script, in the order [__main__] calls them, each with
    the file it opens. *)
Definition final_targets : list (IO.M unit * string) :=
  [(Final.add_logs_to_game_js, Final.game_file_path);
   (Final.add_logs_to_view_js, Final.view_file_path);
   (Final.add_logs_to_interaction_js, Final.interaction_file_path)].

Definition logs_targets : list (IO.M unit * string) :=
  [(Logs.add_logs_to_game_js, Logs.game_file_path);
   (Logs.add_logs_to_view_js, Logs.view_file_path);
   (Logs.add_logs_to_interaction_js, Logs.interaction_file_path);
   (Logs.add_logs_to_board_event_handler_js, Logs.board_file_path)].

Definition simple_targets : list (IO.M unit * string) :=
  [(Simple.add_logs_to_game_js, Simple.game_file_path);
   (Simple.add_logs_to_view_js, Simple.view_file_path);
   (Simple.add_logs_to_interaction_js, Simple.interaction_file_path)].

(** The three scripts: [__main__], the line it prints first, its targets. *)
Inductive script : IO.M unit -> str -> list (IO.M unit * string) -> Prop :=
  | script_final :
      script Final.main (Py.lit "Adding debug logs...") final_targets
  | script_logs :
      script Logs.main (Py.lit "Adding debug logs to click handling functions...")
        logs_targets
  | script_simple :
      script Simple.main (Py.lit "Adding debug logs...") simple_targets.

(** Calling the given targets one after the other. *)
Definition run_all (fs : list (IO.M unit * string)) : IO.M unit :=
  fold_right (fun f k => IO.bind f.1 (fun _ => k)) (IO.ret tt) fs.

(** The anchors that the loop compares with [line.strip()]. *)
Definition exact_line_anchors : list str :=
  [Final.anchor_processing; Final.anchor_player_turn; Final.anchor_info;
   Final.anchor_cpu_turn; Final.anchor_phases].

(** [only_inserts t a b]: the text [b] is the text [a] with copies of [t]
    inserted, nothing else added, removed or changed. *)
Inductive only_inserts (t : str) : str -> str -> Prop :=
  | oi_nil : only_inserts t [] []
  | oi_keep (c : N) (a b : str) :
      only_inserts t a b -> only_inserts t (c :: a) (c :: b)
  | oi_insert (a b : str) :
      only_inserts t a b -> only_inserts t a (t ++ b).

(** The literal text of a template. *)
Definition tpl_text (tpl : list Re.titem) : str :=
  flat_map (fun t => match t with Re.TLit x => x | Re.TGroup _ => [] end) tpl.

(** A pattern that is one group around the whole match, and a template
    that gives this group back with literal text after or before it. *)
Fixpoint body_then_close (p : list Re.item) : bool :=
  match p with
  | [] => false
  | Re.GClose :: p' => match p' with [] => true | _ => false end
  | Re.GOpen :: _ => false
  | _ :: p' => body_then_close p'
  end.

Definition whole_group (p : list Re.item) : bool :=
  match p with
  | Re.GOpen :: p' => body_then_close p'
  | _ => false
  end.

Definition inserting (p : list Re.item) (tpl : list Re.titem) : bool :=
  whole_group p
  && match tpl with
     | [Re.TGroup 1; Re.TLit _] => true
     | [Re.TLit _; Re.TGroup 1] => true
     | _ => false
     end.

(** The literals whose absence keeps every pattern of
    [add_logs_to_game_js] (add_debug_logs.py, add_debug_logs_simple.py)
    from matching: each pattern holds one of them. *)
Definition game_anchor_literals : list str :=
  [Py.lit "async _handleCardClick(dataset) {";
   Py.lit "if (this.state.isProcessing) {";
   Py.lit "if (this.state.turnPlayer === 'player' && owner === 'cpu') {";
   Py.lit "if (zone === 'active' || zone === 'bench') {";
   Py.lit "if (this.state.turnPlayer === 'cpu' && owner === 'player') {";
   Py.lit "// Handle different phases"].

(** The shape shared by the two functions that test a marker and then
    substitute: [add_logs_to_view_js] of add_debug_final.py and
    [add_logs_to_board_event_handler_js] of add_debug_logs.py. *)
Definition guarded_sub (path : string) (m skip ok : str)
    (p : list Re.item) (tpl : list Re.titem) (count : nat) : IO.M unit :=
  (let! content := IO.read_text path in
   if Py.str_in m content then IO.print skip
   else
     IO.write_text path (Re.sub p tpl content count) ;;
     IO.print ok)%io.

(** The functions that rewrite a target file, each with the file, the
    marker it tests if it tests one, the new text it computes from the text
    read (which may raise), and the line it prints after writing. *)
Inductive rewriter :
    IO.M unit -> string -> option str -> (str -> res str) -> str -> Prop :=
  | rewriter_final_game :
      rewriter Final.add_logs_to_game_js Final.game_file_path (Some Final.marker)
        (fun content =>
           res_bind
             (Final.game_loop (Py.split Py.nl content) (Py.split Py.nl content) 0 [])
             (fun new_lines => Return (Py.join [Py.nl] new_lines)))
        (Py.lit "[OK] Updated game.js")
  | rewriter_final_view :
      rewriter Final.add_logs_to_view_js Final.view_file_path
        (Some (Py.lit "SLOT CLICKED (view.js):"))
        (fun content =>
           Return (Re.sub Final.view_pattern Final.view_replacement content 1))
        (Py.lit "[OK] Updated view.js")
  | rewriter_final_interaction :
      rewriter Final.add_logs_to_interaction_js Final.interaction_file_path
        (Some (Py.lit "THREE.JS MOUSE DOWN:"))
        (fun content =>
           res_bind
             (Final.interaction_loop (Py.split Py.nl content)
                (Py.split Py.nl content) 0 [])
             (fun new_lines => Return (Py.join [Py.nl] new_lines)))
        (Py.lit "[OK] Updated interaction.js")
  | rewriter_logs_game :
      rewriter Logs.add_logs_to_game_js Logs.game_file_path None
        (fun content => Return (Logs.game_subs content))
        (Py.lit "✅ Updated " ++ Py.lit Logs.game_file_path)
  | rewriter_logs_view :
      rewriter Logs.add_logs_to_view_js Logs.view_file_path None
        (fun content =>
           Return (Re.sub Logs.view_pattern Logs.view_replacement content 0))
        (Py.lit "✅ Updated " ++ Py.lit Logs.view_file_path)
  | rewriter_logs_interaction :
      rewriter Logs.add_logs_to_interaction_js Logs.interaction_file_path None
        (fun content =>
           Return
             (Re.sub Logs.interaction_pattern2 Logs.interaction_replacement2
                (Re.sub Logs.interaction_pattern Logs.interaction_replacement
                   content 0) 0))
        (Py.lit "✅ Updated " ++ Py.lit Logs.interaction_file_path)
  | rewriter_logs_board :
      rewriter Logs.add_logs_to_board_event_handler_js Logs.board_file_path
        (Some (Py.lit "⛔ BoardEventHandler: disabled"))
        (fun content =>
           Return (Re.sub Logs.board_pattern Logs.board_replacement content 0))
        (Py.lit "✅ Updated " ++ Py.lit Logs.board_file_path)
  | rewriter_simple_game :
      rewriter Simple.add_logs_to_game_js Simple.game_file_path None
        (fun content => Return (Simple.game_subs content))
        (Py.lit "[OK] Updated game.js")
  | rewriter_simple_view :
      rewriter Simple.add_logs_to_view_js Simple.view_file_path None
        (fun content =>
           Return (Re.sub Simple.view_pattern Simple.view_replacement content 0))
        (Py.lit "[OK] Updated view.js")
  | rewriter_simple_interaction :
      rewriter Simple.add_logs_to_interaction_js Simple.interaction_file_path None
        (fun content =>
           Return
             (Re.sub Simple.interaction_pattern2 Simple.interaction_replacement2
                (Re.sub Simple.interaction_pattern Simple.interaction_replacement
                   content 0) 1))
        (Py.lit "[OK] Updated interaction.js").

(** [padded a line]: the line is the text [a] with whitespace, possibly
    none, before and after it. *)
Definition padded (a line : str) : Prop :=
  exists ws1 ws2,
    Forall (fun c => Py.is_space c = true) ws1
    /\ Forall (fun c => Py.is_space c = true) ws2
    /\ line = ws1 ++ a ++ ws2.

(** [replaces_gaps t a b]: the text [b] is the text [a] in which some
    runs of whitespace, each of at least one character, are replaced by
    [t]; every other character, whitespace included, is kept as it is and
    where it is. *)
Inductive replaces_gaps (t : str) : str -> str -> Prop :=
  | rg_nil : replaces_gaps t [] []
  | rg_keep (c : N) (a b : str) :
      replaces_gaps t a b -> replaces_gaps t (c :: a) (c :: b)
  | rg_replace (ws a b : str) :
      ws <> [] ->
      Forall (fun c => Py.is_space c = true) ws ->
      replaces_gaps t a b -> replaces_gaps t (ws ++ a) (t ++ b).

(** The body of a group up to its closing parenthesis, and a test on the
    pattern that follows. *)
Fixpoint body_then (ok : list Re.item -> bool) (p : list Re.item) : bool :=
  match p with
  | [] => false
  | Re.GClose :: p' => ok p'
  | Re.GOpen :: _ => false
  | _ :: p' => body_then ok p'
  end.

(** A pattern [(...)\s+] with a template [\1 text], or a pattern
    [(...)\s+(...)] with a template [\1 text \2]: the groups are given back
    and the whitespace matched by the [\s+] outside them is replaced by the
    text of the template. *)
Definition gap_replacing (p : list Re.item) (tpl : list Re.titem) : bool :=
  match p, tpl with
  | Re.GOpen :: p', [Re.TGroup 1; Re.TLit _] =>
    body_then (fun r => match r with [Re.Spaces1] => true | _ => false end) p'
  | Re.GOpen :: p', [Re.TGroup 1; Re.TLit _; Re.TGroup 2] =>
    body_then
      (fun r => match r with
                | Re.Spaces1 :: Re.GOpen :: r' =>
                  body_then (fun r => match r with [] => true | _ => false end) r'
                | _ => false
                end) p'
  | _, _ => false
  end.

(** * Properties *)

(** ** Facts about the Python built-ins *)
Section PyFacts.
Import Py.

Lemma str_eqb_eq (a b : str) : str_eqb a b = true <-> a = b.
Proof.
  revert b; induction a as [|x a IH]; intros [|y b]; simpl; try (split; congruence).
  rewrite andb_true_iff, N.eqb_eq, IH. split; [intros [-> ->]; done | intros [= -> ->]; done].
Qed.

Lemma str_eqb_refl (a : str) : str_eqb a a = true.
Proof. by apply str_eqb_eq. Qed.

Lemma startswith_spec (p s : str) :
  startswith p s = true <-> exists t, s = p ++ t.
Proof.
  revert s; induction p as [|x p IH]; intros s; simpl.
  - split; [eauto | done].
  - destruct s as [|y s].
    + split; [done | intros [t Ht]; done].
    + rewrite andb_true_iff, N.eqb_eq, IH. split.
      * intros [-> [t ->]]. eauto.
      * intros [t [= -> ->]]. eauto.
Qed.

Lemma str_in_spec (m s : str) :
  str_in m s = true <-> exists a b, s = a ++ m ++ b.
Proof.
  induction s as [|c s IH]; simpl.
  - rewrite orb_false_r, startswith_spec. split.
    + intros [t Ht]. exists [], t. done.
    + intros (a & b & H). symmetry in H.
      apply app_eq_nil in H as [-> H]. apply app_eq_nil in H as [-> ->].
      exists []. done.
  - rewrite orb_true_iff, startswith_spec, IH. split.
    + intros [[t Ht] | (a & b & ->)].
      * exists [], t. done.
      * exists (c :: a), b. done.
    + intros (a & b & H). destruct a as [|x a].
      * left. exists b. done.
      * right. injection H as -> ->. eauto.
Qed.

Lemma str_in_app (m a s b : str) :
  str_in m s = true -> str_in m (a ++ s ++ b) = true.
Proof.
  rewrite !str_in_spec. intros (x & y & ->).
  exists (a ++ x), (y ++ b). by rewrite <- !app_assoc.
Qed.

Lemma str_in_elem (m s : str) (x : N) :
  str_in m s = true -> x ∈ m -> x ∈ s.
Proof.
  rewrite str_in_spec. intros (a & b & ->) Hx.
  rewrite !elem_of_app. auto.
Qed.

Lemma lstrip_split (s : str) :
  exists ws, s = ws ++ lstrip s /\ Forall (fun c => is_space c = true) ws.
Proof.
  induction s as [|c s (ws & Hs & Hws)]; simpl.
  - exists []. done.
  - destruct (is_space c) eqn:Hc.
    + exists (c :: ws). split; [simpl; congruence | by constructor].
    + exists []. done.
Qed.

Lemma lstrip_spaces (ws s : str) :
  Forall (fun c => is_space c = true) ws -> lstrip (ws ++ s) = lstrip s.
Proof. induction 1 as [|c ws Hc _ IH]; simpl; [done | by rewrite Hc]. Qed.

Lemma lstrip_app (s t : str) : lstrip s <> [] -> lstrip (s ++ t) = lstrip s ++ t.
Proof.
  induction s as [|c s IH]; simpl; [done |].
  destruct (is_space c); [done | done].
Qed.

Lemma lstrip_all_space (s t : str) : lstrip s = [] -> lstrip (s ++ t) = lstrip t.
Proof.
  induction s as [|c s IH]; simpl; [done |].
  destruct (is_space c); [done | done].
Qed.

Lemma strip_split (s : str) :
  exists ws1 ws2,
    s = ws1 ++ strip s ++ ws2
    /\ Forall (fun c => is_space c = true) ws1
    /\ Forall (fun c => is_space c = true) ws2.
Proof.
  destruct (lstrip_split s) as (ws1 & Hs & H1).
  destruct (lstrip_split (rev (lstrip s))) as (ws & Hr & H2).
  exists ws1, (rev ws). split; [| split; [done | by apply Forall_rev]].
  unfold strip, rstrip. rewrite <- rev_app_distr, <- Hr, rev_involutive. done.
Qed.

Lemma strip_spaces (ws1 s ws2 : str) :
  Forall (fun c => is_space c = true) ws1 ->
  Forall (fun c => is_space c = true) ws2 ->
  strip (ws1 ++ s ++ ws2) = strip s.
Proof.
  intros H1 H2. unfold strip. rewrite lstrip_spaces by done.
  destruct (lstrip s) as [|c r] eqn:Hl.
  - rewrite lstrip_all_space by done.
    destruct (lstrip_split ws2) as (ws & Hws & _).
    assert (lstrip ws2 = []) as ->; [| done].
    clear -H2. induction H2 as [|c ws2 Hc _ IH]; simpl; [done | by rewrite Hc].
  - rewrite lstrip_app by (by rewrite Hl). rewrite Hl.
    unfold rstrip. rewrite rev_app_distr, lstrip_spaces; [done |].
    by apply Forall_rev.
Qed.

(** [line.strip() == a] holds exactly for [a] wrapped in whitespace. *)
Lemma strip_eq_iff (a line : str) :
  strip a = a ->
  (str_eqb (strip line) a = true <->
   exists ws1 ws2,
     Forall (fun c => is_space c = true) ws1
     /\ Forall (fun c => is_space c = true) ws2
     /\ line = ws1 ++ a ++ ws2).
Proof.
  intros Ha. rewrite str_eqb_eq. split.
  - intros <-. destruct (strip_split line) as (ws1 & ws2 & ? & ? & ?). eauto.
  - intros (ws1 & ws2 & H1 & H2 & ->). by rewrite strip_spaces.
Qed.

Lemma strip_elem (s : str) (x : N) :
  x ∈ s -> is_space x = true \/ x ∈ strip s.
Proof.
  destruct (strip_split s) as (ws1 & ws2 & Hs & H1 & H2).
  rewrite Hs at 1. rewrite !elem_of_app. rewrite Forall_forall in H1, H2.
  intros [? | [? | ?]]; auto.
Qed.

(** A literal holding a visible character that the stripped line lacks
    cannot occur in the line. *)
Lemma str_in_strip_absent (m line : str) (x : N) :
  x ∈ m -> is_space x = false -> x ∉ strip line -> str_in m line = false.
Proof.
  intros Hm Hx Hs. destruct (str_in m line) eqn:E; [| done].
  destruct (strip_elem line x) as [H | H]; [by eapply str_in_elem | congruence | done].
Qed.

Lemma split_nonempty (sep : N) (s : str) : split sep s <> [].
Proof.
  induction s as [|c s IH]; simpl; [done |].
  destruct (c =? sep)%N; [done |]. by destruct (split sep s).
Qed.

Lemma join_cons (sep l : str) (ls : list str) :
  ls <> [] -> join sep (l :: ls) = l ++ sep ++ join sep ls.
Proof. by destruct ls. Qed.

(** ['\n'.join(s.split('\n')) == s] *)
Lemma join_split (s : str) : join [nl] (split nl s) = s.
Proof.
  induction s as [|c s IH]; [done |].
  cbn [split]. destruct (N.eqb_spec c nl) as [-> | Hc].
  - rewrite join_cons by apply split_nonempty. by rewrite IH.
  - pose proof (split_nonempty nl s) as Hne.
    destruct (split nl s) as [|h t]; [done |].
    destruct t as [|h' t].
    + simpl in *. by rewrite IH.
    + rewrite join_cons by done. rewrite join_cons in IH by done.
      rewrite <- IH. done.
Qed.

Lemma universal_newlines_no_cr (s : str) : cr ∉ IO.universal_newlines s.
Proof.
  assert ((cr ∉ IO.universal_newlines s)
          /\ (forall c, cr ∉ IO.universal_newlines (c :: s))) as [H _]; [| done].
  induction s as [|d s [IH1 IH2]].
  - split; [simpl; apply not_elem_of_nil |].
    intros c. simpl. destruct (N.eqb_spec c cr) as [-> | Hc].
    + by intros [? | ?%elem_of_nil]%elem_of_cons.
    + by intros [? | ?%elem_of_nil]%elem_of_cons.
  - split; [apply IH2 |].
    intros c. cbn [IO.universal_newlines].
    destruct (N.eqb_spec c cr) as [-> | Hc].
    + destruct (d =? nl)%N; rewrite not_elem_of_cons; split; try done; apply IH2.
    + rewrite not_elem_of_cons. split; [done | apply IH2].
Qed.

(** What was written in text mode reads back unchanged, on either
    platform, provided it holds no carriage return. *)
Lemma newline_roundtrip (p : IO.platform) (t : str) :
  cr ∉ t -> IO.universal_newlines (IO.write_newlines p t) = t.
Proof.
  induction t as [|c t IH]; [done |].
  rewrite not_elem_of_cons. intros [Hc Ht]. specialize (IH Ht).
  unfold IO.write_newlines in *. cbn [flat_map].
  destruct (N.eqb_spec c nl) as [-> | Hn].
  - destruct p; simpl; simpl in IH; by rewrite IH.
  - cbn [app IO.universal_newlines].
    destruct (N.eqb_spec c cr) as [-> | _]; [done |]. by rewrite IH.
Qed.

Lemma insert_before_last {A} (l : list A) (x y : A) :
  insert (l ++ [y]) (-1) x = l ++ [x; y].
Proof.
  unfold insert. rewrite length_app. cbn [length].
  replace (Z.to_nat _) with (length l) by (cbn; lia).
  rewrite take_app_length, drop_app_length. done.
Qed.

Lemma insert_before_last_twice {A} (l : list A) (a b y : A) :
  insert (insert (l ++ [y]) (-1) a) (-1) b = l ++ [a; b; y].
Proof.
  rewrite insert_before_last.
  change (l ++ [a; y]) with (l ++ [a] ++ [y]). rewrite app_assoc.
  rewrite insert_before_last. by rewrite <- app_assoc.
Qed.

End PyFacts.

Arguments Py.lit : simpl never.
Arguments Py.str_in : simpl never.
Arguments Py.strip : simpl never.
Arguments Py.str_eqb : simpl never.

(** ** Facts about the I/O monad *)
Section IOFacts.

Lemma bind_return {A B} (c : IO.M A) (k : A -> IO.M B) (w w' : IO.world) (a : A) :
  c w = (Return a, w') -> IO.bind c k w = k a w'.
Proof. intros H. unfold IO.bind. by rewrite H. Qed.

Lemma bind_raise {A B} (c : IO.M A) (k : A -> IO.M B) (w w' : IO.world) (e : exn) :
  c w = (Raise e, w') -> IO.bind c k w = (Raise e, w').
Proof. intros H. unfold IO.bind. by rewrite H. Qed.

Lemma bind_inv {A B} (c : IO.M A) (k : A -> IO.M B) (w w' : IO.world) (b : B) :
  IO.bind c k w = (Return b, w') ->
  exists a w0, c w = (Return a, w0) /\ k a w0 = (Return b, w').
Proof.
  unfold IO.bind. destruct (c w) as [[a | e] w0]; [eauto | done].
Qed.

Lemma print_returns (s : str) (w : IO.world) :
  IO.print s w = (Return tt, (IO.print s w).2).
Proof. done. Qed.

Lemma print_files (s : str) (w : IO.world) :
  IO.files (IO.print s w).2 = IO.files w.
Proof. done. Qed.

Lemma read_missing (path : string) (w : IO.world) :
  IO.files w !! path = None -> IO.read_text path w = (Raise (OSError path), w).
Proof. intros H. unfold IO.read_text. by rewrite H. Qed.

Lemma read_present (path : string) (w : IO.world) (raw : str) :
  IO.files w !! path = Some raw ->
  IO.read_text path w = (Return (IO.universal_newlines raw), w).
Proof. intros H. unfold IO.read_text. by rewrite H. Qed.

End IOFacts.

(** ** Facts about the [re] fragment *)
Section ReFacts.
Import Py Re.

Lemma re_match_lit (t : str) (p : list item) (s : str) (pos : nat)
    (opens : list nat) (caps : list (nat * nat)) r :
  re_match (Lit t :: p) s pos opens caps = Some r ->
  re_match p (drop (length t) s) (pos + length t) opens caps = Some r.
Proof. cbn [re_match]. by destruct (startswith t s). Qed.

Lemma re_match_spaces (p : list item) (s : str) (pos : nat)
    (opens : list nat) (caps : list (nat * nat)) r :
  re_match (Spaces1 :: p) s pos opens caps = Some r ->
  exists k,
    Forall (fun c => is_space c = true) (take k s)
    /\ re_match p (drop k s) (pos + k) opens caps = Some r.
Proof.
  cbn [re_match]. revert pos. induction s as [|c s IH]; intros pos; [done |].
  destruct (is_space c) eqn:Hc; [| done].
  match goal with
  | |- context [match ?x with Some _ => _ | None => _ end] => destruct x eqn:E
  end.
  - intros [= <-]. destruct (IH _ E) as (k & Hk & Hm).
    exists (S k). cbn [take drop]. split; [by constructor |].
    by replace (pos + S k)%nat with (S pos + k)%nat by lia.
  - intros Hm. exists 1%nat. cbn [take drop]. split; [by repeat constructor |].
    by replace (pos + 1)%nat with (S pos) by lia.
Qed.

Lemma re_match_any (p : list item) (s : str) (pos : nat)
    (opens : list nat) (caps : list (nat * nat)) r :
  re_match (AnyStar :: p) s pos opens caps = Some r ->
  exists k, re_match p (drop k s) (pos + k) opens caps = Some r.
Proof.
  cbn [re_match]. revert pos. induction s as [|c s IH]; intros pos.
  - intros Hm. exists 0%nat. by rewrite Nat.add_0_r.
  - destruct (c =? nl)%N.
    { intros Hm. exists 0%nat. by rewrite Nat.add_0_r. }
    match goal with
    | |- context [match ?x with Some _ => _ | None => _ end] => destruct x eqn:E
    end.
    + intros [= <-]. destruct (IH _ E) as (k & Hm).
      exists (S k). cbn [drop].
      by replace (pos + S k)%nat with (S pos + k)%nat by lia.
    + intros Hm. exists 0%nat. by rewrite Nat.add_0_r.
Qed.

Lemma visible_app (a b : str) : visible (a ++ b) = visible a ++ visible b.
Proof. apply List.filter_app. Qed.

Lemma visible_spaces (ws : str) :
  Forall (fun c => is_space c = true) ws -> visible ws = [].
Proof.
  induction 1 as [|c ws Hc _ IH]; [done |].
  unfold visible in *. cbn [List.filter]. by rewrite Hc.
Qed.

Lemma n_groups_cons (i : item) (p : list item) :
  n_groups (i :: p)
  = ((match i with GClose => 1 | _ => 0 end) + n_groups p)%nat.
Proof. unfold n_groups. cbn [List.filter]. by destruct i. Qed.

(** The visible text a covering pattern matches is the visible text of its
    groups. *)
Lemma re_match_covered (s0 : str) (p : list item) :
  forall inside pos opens caps e cs,
    covering inside p = true ->
    match_state inside s0 pos opens caps ->
    re_match p (drop pos s0) pos opens caps = Some (e, cs) ->
    visible (take e s0) = flat_map (fun be => visible (span s0 be)) cs
    /\ length cs = (length caps + n_groups p)%nat.
Proof.
  induction p as [|i p IH]; intros inside pos opens caps e cs Hcov Hst Hm.
  - cbn [covering] in Hcov. destruct inside; [done |].
    cbn [re_match] in Hm. injection Hm as <- <-. destruct Hst as [_ Hv].
    split; [done |]. rewrite length_rev. unfold n_groups. cbn. lia.
  - rewrite n_groups_cons. destruct i; cbn [covering] in Hcov.
    + apply andb_true_iff in Hcov as [-> Hcov].
      apply re_match_lit in Hm. rewrite drop_drop in Hm.
      eapply IH in Hm as [? ?]; [split; [done | lia] | done |].
      destruct Hst as (o & ? & ? & ?). exists o. split; [done |]. split; [lia | done].
    + apply re_match_spaces in Hm as (k & Hk & Hm). rewrite drop_drop in Hm.
      eapply IH in Hm as [? ?]; [split; [done | lia] | done |].
      destruct inside.
      * destruct Hst as (o & ? & ? & ?). exists o. split; [done |]. split; [lia | done].
      * destruct Hst as [? Hv]. split; [done |].
        rewrite <- take_take_drop, visible_app, (visible_spaces _ Hk), app_nil_r.
        done.
    + apply andb_true_iff in Hcov as [-> Hcov].
      apply re_match_any in Hm as (k & Hm). rewrite drop_drop in Hm.
      eapply IH in Hm as [? ?]; [split; [done | lia] | done |].
      destruct Hst as (o & ? & ? & ?). exists o. split; [done |]. split; [lia | done].
    + apply andb_true_iff in Hcov as [Hin Hcov]. destruct inside; [done |].
      cbn [re_match] in Hm. destruct Hst as [-> Hv].
      eapply IH in Hm as [? ?]; [split; [done | lia] | done |].
      exists pos. done.
    + apply andb_true_iff in Hcov as [-> Hcov].
      destruct Hst as (o & -> & Hle & Hv). cbn [re_match] in Hm.
      eapply IH in Hm as [? Hlen]; [split; [done | cbn [length] in Hlen; lia] | done |].
      split; [done |]. cbn [rev]. rewrite List.flat_map_app. cbn [flat_map].
      rewrite app_nil_r, <- Hv. unfold span. cbn [fst snd].
      rewrite <- visible_app, take_take_drop. f_equal. f_equal. lia.
Qed.

(** A template that gives back every group in order gives back at least
    the visible text of the groups. *)
Lemma expand_covers (tpl : list titem) (cs : list (nat * nat)) (s0 : str) :
  forall k,
    tpl_groups tpl = seq (S k) (length cs - k) ->
    sublist (flat_map (fun be => visible (span s0 be)) (drop k cs))
      (visible (expand tpl cs s0)).
Proof.
  induction tpl as [|t tpl IH]; intros k Hg.
  - cbn in Hg. destruct (length cs - k)%nat eqn:E; [| done].
    rewrite drop_ge by lia. apply sublist_nil_l.
  - unfold expand. cbn [flat_map]. fold (expand tpl cs s0). rewrite visible_app.
    destruct t as [x | n]; cbn [tpl_groups flat_map app] in Hg.
    + apply sublist_inserts_l. by apply IH.
    + fold (tpl_groups tpl) in Hg.
      destruct (length cs - k)%nat as [|m] eqn:E; [done |].
      cbn [seq] in Hg. injection Hg as -> Hg.
      destruct (lookup_lt_is_Some_2 cs k) as [[b e] Hbe]; [lia |].
      rewrite (drop_S _ _ _ Hbe). cbn [flat_map group]. rewrite Hbe.
      apply sublist_app; [done |]. apply IH.
      by replace (length cs - S k)%nat with m by lia.
Qed.

(** [re.sub] with a preserving pattern and template keeps every visible
    character of the text, in order. *)
Lemma sub_scan_visible (p : list item) (tpl : list titem) :
  preserving p tpl = true ->
  forall s limit skip,
    sublist (visible (drop skip s)) (visible (sub_scan p tpl limit skip s)).
Proof.
  intros [Hcov Hg%bool_decide_eq_true]%andb_true_iff.
  assert (forall s len caps,
            re_match p s 0 [] [] = Some (len, caps) ->
            sublist (visible (take len s)) (visible (expand tpl caps s)))
    as Hcover.
  { intros s len caps Hm.
    apply (re_match_covered s p false 0 [] [] len caps) in Hm as [-> Hlen];
      [| done | done].
    rewrite <- (drop_0 caps) at 1. apply expand_covers.
    rewrite Hlen, Nat.sub_0_r. done. }
  induction s as [|c s IH]; intros limit skip.
  - rewrite drop_nil. apply sublist_nil_l.
  - destruct skip as [|k]; cbn [sub_scan]; [| apply IH].
    rewrite drop_0.
    destruct (match limit with Some 0%nat => None | _ => re_match p (c :: s) 0 [] [] end)
      as [[len caps] |] eqn:Hm.
    + assert (re_match p (c :: s) 0 [] [] = Some (len, caps)) as Hm'.
      { destruct limit as [[|n] |]; done. }
      apply Hcover in Hm'. rewrite visible_app. destruct len as [|k].
      * apply sublist_inserts_l. change (c :: s) with ([c] ++ s).
        change (c :: sub_scan p tpl (spend limit) 0 s)
          with ([c] ++ sub_scan p tpl (spend limit) 0 s).
        rewrite !visible_app. apply sublist_app; [done |].
        specialize (IH (spend limit) 0%nat). by rewrite drop_0 in IH.
      * rewrite <- (take_drop (S k) (c :: s)) at 1. rewrite visible_app.
        apply sublist_app; [done |]. apply IH.
    + change (c :: s) with ([c] ++ s).
      change (c :: sub_scan p tpl limit 0 s) with ([c] ++ sub_scan p tpl limit 0 s).
      rewrite !visible_app. apply sublist_app; [done |].
      specialize (IH limit 0%nat). by rewrite drop_0 in IH.
Qed.

Lemma sub_visible (p : list item) (tpl : list titem) (s : str) (count : nat) :
  preserving p tpl = true -> sublist (visible s) (visible (sub p tpl s count)).
Proof.
  intros H. unfold sub. rewrite <- (drop_0 s) at 1. by apply sub_scan_visible.
Qed.

End ReFacts.

(** ** Facts about add_debug_final.py *)
Section FinalFacts.
Import Py Final.

Ltac split_if :=
  match goal with
  | |- context [if ?b then _ else _] => destruct b
  end.

(** Once [lines[i-1]] is known to exist, the [if]/[elif] chain of the loop
    body is a cascade of plain tests; only [lines[i+1]] can still raise. *)
Lemma game_step_chain (lines : list str) (i : Z) (line prev : str)
    (acc : list str) :
  getitem lines (i - 1) = Return prev ->
  game_step lines i line acc =
    if str_in anchor_dataset line && str_in (lit "async _handleCardClick") prev
    then Return (acc ++ line :: click_log)
    else if str_eqb (strip line) anchor_processing && (0 <? i)
            && str_in (lit "処理中の場合はクリックを無視") prev
    then Return (acc ++ [line; log_processing])
    else if str_eqb (strip line) anchor_player_turn && (0 <? i)
            && str_in (lit "ターンプレイヤーと所有者のチェック") prev
    then Return (acc ++ [line; log_player_turn])
    else if str_eqb (strip line) anchor_info
            && str_in (lit "CPUのカードは情報表示のみ許可") prev
    then Return (acc ++ [line; log_info])
    else if str_eqb (strip line) anchor_cpu_turn
    then Return (acc ++ [line; log_cpu_turn])
    else if str_eqb (strip line) anchor_phases
    then res_bind (getitem lines (i + 1))
           (fun next => if str_in (lit "switch") next
                        then Return (acc ++ [lit ""; log_allowed; line])
                        else Return (acc ++ [line]))
    else Return (acc ++ [line]).
Proof.
  intros Hprev. unfold game_step, and_then, append. rewrite Hprev.
  cbn [res_bind fold_left click_log]. rewrite insert_before_last_twice.
  rewrite <- !app_assoc. cbn [app].
  repeat (split_if; cbn [andb res_bind]; try reflexivity);
    destruct (getitem lines (i + 1)); cbn [res_bind]; reflexivity.
Qed.
Lemma getitem_lookup {A} (l : list A) (i : nat) (x : A) :
  l !! i = Some x -> getitem l (Z.of_nat i) = Return x.
Proof.
  intros H. pose proof (lookup_lt_Some _ _ _ H).
  unfold getitem, index.
  destruct (Z.leb_spec 0 (Z.of_nat i)); [| lia].
  destruct (Z.ltb_spec (Z.of_nat i) (Z.of_nat (length l))); [| lia].
  cbn [andb]. by rewrite Nat2Z.id, H.
Qed.

Lemma getitem_past_end {A} (l : list A) :
  getitem l (Z.of_nat (length l)) = Raise IndexError.
Proof.
  unfold getitem, index.
  destruct (Z.leb_spec 0 (Z.of_nat (length l))); [| lia].
  destruct (Z.ltb_spec (Z.of_nat (length l)) (Z.of_nat (length l))); [lia |].
  cbn [andb].
  destruct (Z.ltb_spec (Z.of_nat (length l)) 0); [lia |].
  by rewrite andb_false_r.
Qed.

Lemma index_last {A} (l : list A) (x : A) : index (l ++ [x]) (-1) = Some x.
Proof.
  unfold index. rewrite length_app. cbn [length].
  assert ((0 <=? -1) = false) as -> by done.
  assert ((-1 <? 0) = true) as -> by done.
  destruct (Z.leb_spec (- Z.of_nat (length l + 1)) (-1)); [| lia].
  cbn [andb].
  replace (Z.to_nat (Z.of_nat (length l + 1) + -1)) with (length l) by lia.
  by apply list_lookup_middle.
Qed.

(** [lines[i-1]] never raises inside the loop: at [i = 0] it is the last
    line. *)
Lemma getitem_prev (pre rest : list str) (line : str) :
  exists prev,
    getitem (pre ++ line :: rest) (Z.of_nat (length pre) - 1) = Return prev.
Proof.
  destruct pre as [|p pre _] using rev_ind.
  - cbn [length app]. change (Z.of_nat 0 - 1) with (-1).
    destruct (line :: rest) as [|x l _] eqn:E using rev_ind; [done |].
    exists x. unfold getitem. by rewrite index_last.
  - exists p. rewrite length_app. cbn [length].
    replace (Z.of_nat (length pre + 1) - 1) with (Z.of_nat (length pre)) by lia.
    apply getitem_lookup. rewrite <- app_assoc. cbn [app].
    by apply list_lookup_middle.
Qed.

Lemma getitem_next (pre rest : list str) (line next : str) :
  getitem (pre ++ line :: next :: rest) (Z.of_nat (length pre) + 1) = Return next.
Proof.
  replace (Z.of_nat (length pre) + 1) with (Z.of_nat (length (pre ++ [line])))
    by (rewrite length_app; cbn [length]; lia).
  apply getitem_lookup.
  change (pre ++ line :: next :: rest) with (pre ++ [line] ++ next :: rest).
  rewrite app_assoc. by apply list_lookup_middle.
Qed.

Lemma getitem_next_last (pre : list str) (line : str) :
  getitem (pre ++ [line]) (Z.of_nat (length pre) + 1) = Raise IndexError.
Proof.
  replace (Z.of_nat (length pre) + 1) with (Z.of_nat (length (pre ++ [line])))
    by (rewrite length_app; cbn [length]; lia).
  apply getitem_past_end.
Qed.

(** The loop rule: a property of (lines already read, [new_lines]) kept by
    every iteration that returns holds when the loop returns. *)
Lemma game_loop_rule (I : list str -> list str -> Prop) (lines : list str) :
  (forall pre line rest acc out,
     lines = pre ++ line :: rest ->
     I pre acc ->
     game_step lines (Z.of_nat (length pre)) line acc = Return out ->
     I (pre ++ [line]) out) ->
  forall rest pre acc out,
    lines = pre ++ rest ->
    I pre acc ->
    game_loop lines rest (Z.of_nat (length pre)) acc = Return out ->
    I lines out.
Proof.
  intros Hstep rest. induction rest as [|line rest IH]; intros pre acc out Hl HI.
  - cbn [game_loop]. intros [= <-]. by rewrite Hl, app_nil_r.
  - cbn [game_loop].
    destruct (game_step lines (Z.of_nat (length pre)) line acc) as [acc' | e] eqn:E;
      cbn [res_bind]; [| done].
    replace (Z.of_nat (length pre) + 1) with (Z.of_nat (length (pre ++ [line])))
      by (rewrite length_app; cbn [length]; lia).
    apply IH.
    + by rewrite <- app_assoc.
    + by eapply Hstep.
Qed.

(** A line that strips to the "phases" comment passes every earlier test of
    the chain. *)
Lemma phases_line_chain (lines : list str) (i : Z) (line prev : str)
    (acc : list str) :
  getitem lines (i - 1) = Return prev ->
  str_eqb (strip line) anchor_phases = true ->
  game_step lines i line acc =
    res_bind (getitem lines (i + 1))
      (fun next => if str_in (lit "switch") next
                   then Return (acc ++ [lit ""; log_allowed; line])
                   else Return (acc ++ [line])).
Proof.
  intros Hprev Hs. rewrite (game_step_chain _ _ _ _ _ Hprev), Hs.
  apply str_eqb_eq in Hs.
  assert (str_in anchor_dataset line = false) as ->.
  { apply (str_in_strip_absent _ _ 99%N); rewrite ?Hs;
      [| done |]; apply (bool_decide_unpack _); by vm_compute. }
  rewrite Hs.
  assert (str_eqb anchor_phases anchor_processing = false) as -> by by vm_compute.
  assert (str_eqb anchor_phases anchor_player_turn = false) as -> by by vm_compute.
  assert (str_eqb anchor_phases anchor_info = false) as -> by by vm_compute.
  assert (str_eqb anchor_phases anchor_cpu_turn = false) as -> by by vm_compute.
  done.
Qed.

Lemma game_step_returns (lines : list str) (i : Z) (line prev next : str)
    (acc : list str) :
  getitem lines (i - 1) = Return prev ->
  getitem lines (i + 1) = Return next ->
  exists out, game_step lines i line acc = Return out.
Proof.
  intros Hprev Hnext. rewrite (game_step_chain _ _ _ _ _ Hprev), Hnext.
  cbn [res_bind]. repeat split_if; eauto.
Qed.

Lemma game_step_returns_other (lines : list str) (i : Z) (line prev : str)
    (acc : list str) :
  getitem lines (i - 1) = Return prev ->
  str_eqb (strip line) anchor_phases = false ->
  exists out, game_step lines i line acc = Return out.
Proof.
  intros Hprev Hs. rewrite (game_step_chain _ _ _ _ _ Hprev), Hs.
  repeat split_if; eauto.
Qed.

(** The loop raises exactly when the last line strips to the "phases"
    comment, and then it is [IndexError]. *)
Lemma game_loop_raises (lines : list str) :
  forall rest pre acc,
    lines = pre ++ rest ->
    forall e,
      game_loop lines rest (Z.of_nat (length pre)) acc = Raise e <->
      e = IndexError
      /\ exists l, last rest = Some l /\ str_eqb (strip l) anchor_phases = true.
Proof.
  intros rest. induction rest as [|line rest IH]; intros pre acc Hl e.
  - cbn [game_loop last]. split; [done | intros (_ & l & ? & _); done].
  - destruct (getitem_prev pre rest line) as [prev Hprev]. rewrite <- Hl in Hprev.
    cbn [game_loop]. destruct rest as [|next rest].
    + cbn [last]. destruct (str_eqb (strip line) anchor_phases) eqn:Hs.
      * rewrite (phases_line_chain _ _ _ _ _ Hprev Hs), Hl, getitem_next_last.
        cbn [res_bind]. split; [intros [= <-]; eauto | intros [-> _]; done].
      * destruct (game_step_returns_other _ _ _ _ acc Hprev Hs) as [out ->].
        cbn [res_bind game_loop]. split; [done |].
        intros (_ & l & [= <-] & Hl'). congruence.
    + pose proof (getitem_next pre rest line next) as Hnext. rewrite <- Hl in Hnext.
      destruct (game_step_returns _ _ line _ _ acc Hprev Hnext) as [out ->].
      cbn [res_bind].
      replace (Z.of_nat (length pre) + 1) with (Z.of_nat (length (pre ++ [line])))
        by (rewrite length_app; cbn [length]; lia).
      rewrite IH by (by rewrite <- app_assoc). done.
Qed.

(** Every iteration that returns copies the line and puts one of the fixed
    blocks around it. *)
Lemma game_step_shape (pre rest : list str) (line : str) (acc out : list str) :
  game_step (pre ++ line :: rest) (Z.of_nat (length pre)) line acc = Return out ->
  exists before after,
    (before, after) ∈ insertions /\ out = acc ++ before ++ line :: after.
Proof.
  destruct (getitem_prev pre rest line) as [prev Hprev].
  rewrite (game_step_chain _ _ _ _ _ Hprev).
  assert (forall b a, (b, a) ∈ insertions ->
            Return (acc ++ b ++ line :: a) = Return out ->
            exists before after,
              (before, after) ∈ insertions /\ out = acc ++ before ++ line :: after)
    as Hpick by (intros b a ? [= <-]; eauto).
  split_if; [by apply (Hpick [] click_log), (list_elem_of_lookup_2 _ 1%nat) |].
  split_if; [by apply (Hpick [] [log_processing]), (list_elem_of_lookup_2 _ 2%nat) |].
  split_if; [by apply (Hpick [] [log_player_turn]), (list_elem_of_lookup_2 _ 3%nat) |].
  split_if; [by apply (Hpick [] [log_info]), (list_elem_of_lookup_2 _ 4%nat) |].
  split_if; [by apply (Hpick [] [log_cpu_turn]), (list_elem_of_lookup_2 _ 5%nat) |].
  split_if; [| by apply (Hpick [] []), (list_elem_of_lookup_2 _ 0%nat)].
  destruct (getitem _ (_ + 1)); cbn [res_bind]; [| done].
  split_if;
    [by apply (Hpick [lit ""; log_allowed] []), (list_elem_of_lookup_2 _ 6%nat)
    | by apply (Hpick [] []), (list_elem_of_lookup_2 _ 0%nat)].
Qed.

(** The loop never drops a line; when it adds none, it returns the lines
    it was given. *)
Lemma game_loop_no_insertion (lines out : list str) :
  game_loop lines lines 0 [] = Return out ->
  (length lines <= length out)%nat /\ (length out = length lines -> out = lines).
Proof.
  intros H.
  apply (game_loop_rule
           (fun pre acc => length pre <= length acc
                           /\ (length acc = length pre -> acc = pre))%nat
           lines) with (rest := lines) (pre := []) (acc := []);
    [| done | done | done].
  clear. intros pre line rest acc out -> [Hle Heq] Hstep.
  apply game_step_shape in Hstep as (before & after & Hin & ->).
  rewrite !length_app. cbn [length].
  split; [lia |]. intros Hlen.
  assert (before = [] /\ after = []) as [-> ->]
    by (split; apply length_zero_iff_nil; lia).
  cbn [app]. rewrite Heq by lia. done.
Qed.

Lemma count_app (P : str -> bool) (l1 l2 : list str) :
  count P (l1 ++ l2) = (count P l1 + count P l2)%nat.
Proof. unfold count. by rewrite List.filter_app, length_app. Qed.

Lemma count_cons (P : str -> bool) (l : str) (ls : list str) :
  count P (l :: ls) = ((if P l then 1 else 0) + count P ls)%nat.
Proof. unfold count. cbn [List.filter]. by destruct (P l). Qed.

(** A line that strips to the "CPU turn" test passes every earlier test of
    the chain and gets its log line. *)
Lemma cpu_turn_line_chain (lines : list str) (i : Z) (line prev : str)
    (acc : list str) :
  getitem lines (i - 1) = Return prev ->
  str_eqb (strip line) anchor_cpu_turn = true ->
  game_step lines i line acc = Return (acc ++ [line; log_cpu_turn]).
Proof.
  intros Hprev Hs. rewrite (game_step_chain _ _ _ _ _ Hprev), Hs.
  apply str_eqb_eq in Hs.
  assert (str_in anchor_dataset line = false) as ->.
  { apply (str_in_strip_absent _ _ 44%N); rewrite ?Hs;
      [| done |]; apply (bool_decide_unpack _); by vm_compute. }
  rewrite Hs.
  assert (str_eqb anchor_cpu_turn anchor_processing = false) as -> by by vm_compute.
  assert (str_eqb anchor_cpu_turn anchor_player_turn = false) as -> by by vm_compute.
  assert (str_eqb anchor_cpu_turn anchor_info = false) as -> by by vm_compute.
  done.
Qed.

(** What one iteration adds to the number of "CPU turn" log lines. *)
Lemma game_step_cpu_count (pre rest : list str) (line : str)
    (acc out : list str) :
  game_step (pre ++ line :: rest) (Z.of_nat (length pre)) line acc = Return out ->
  count (str_eqb log_cpu_turn) out
  = (count (str_eqb log_cpu_turn) acc
     + (if str_eqb log_cpu_turn line then 1 else 0)
     + (if str_eqb (strip line) anchor_cpu_turn then 1 else 0))%nat.
Proof.
  destruct (getitem_prev pre rest line) as [prev Hprev].
  destruct (str_eqb (strip line) anchor_cpu_turn) eqn:Hs.
  - rewrite (cpu_turn_line_chain _ _ _ _ _ Hprev Hs). intros [= <-].
    rewrite count_app, !count_cons.
    assert (str_eqb log_cpu_turn log_cpu_turn = true) as -> by apply str_eqb_refl.
    cbn [count List.filter length]. lia.
  - rewrite (game_step_chain _ _ _ _ _ Hprev), Hs.
    assert (forall b a,
              count (str_eqb log_cpu_turn) b = 0%nat ->
              count (str_eqb log_cpu_turn) a = 0%nat ->
              Return (acc ++ b ++ line :: a) = Return out ->
              count (str_eqb log_cpu_turn) out
              = (count (str_eqb log_cpu_turn) acc
                 + (if str_eqb log_cpu_turn line then 1 else 0) + 0)%nat)
      as Hpick.
    { intros b a Hb Ha [= <-]. rewrite !count_app, count_cons, Hb, Ha. lia. }
    split_if; [by apply (Hpick [] click_log) |].
    split_if; [by apply (Hpick [] [log_processing]) |].
    split_if; [by apply (Hpick [] [log_player_turn]) |].
    split_if; [by apply (Hpick [] [log_info]) |].
    split_if; [| by apply (Hpick [] [])].
    destruct (getitem _ (_ + 1)); cbn [res_bind]; [| done].
    split_if; [by apply (Hpick [lit ""; log_allowed] []) | by apply (Hpick [] [])].
Qed.

Lemma split_forall (P : N -> Prop) (sep : N) (s : str) :
  Forall P s -> Forall (Forall P) (split sep s).
Proof.
  induction 1 as [|c s Hc Hs IH]; cbn [split]; [by repeat constructor |].
  destruct (c =? sep)%N; [by constructor |].
  destruct (split sep s) as [|h t]; [by repeat constructor |].
  inversion_clear IH. by repeat constructor.
Qed.

Lemma join_forall (P : N -> Prop) (sep : str) (ls : list str) :
  Forall P sep -> Forall (Forall P) ls -> Forall P (join sep ls).
Proof.
  intros Hsep. induction 1 as [|l ls Hl Hls IH]; [done |].
  destruct ls as [|l' ls]; [done |].
  rewrite join_cons by done. by rewrite !Forall_app.
Qed.

Lemma str_in_join (m sep l : str) (ls : list str) :
  l ∈ ls -> str_in m l = true -> str_in m (join sep ls) = true.
Proof.
  intros Hl Hm. induction ls as [|l0 ls IH]; [by apply elem_of_nil in Hl |].
  destruct ls as [|l1 ls].
  - apply list_elem_of_singleton in Hl as ->. done.
  - rewrite join_cons by done. apply elem_of_cons in Hl as [-> | Hl].
    + by apply (str_in_app m [] l0).
    + rewrite app_assoc. rewrite <- (app_nil_r (join _ _)).
      apply str_in_app. by apply IH.
Qed.

Lemma getitem_index {A} (l : list A) (i : Z) (x : A) :
  index l i = Some x -> getitem l i = Return x.
Proof. intros H. unfold getitem. by rewrite H. Qed.

(** The loop inserts no carriage return. *)
Lemma game_loop_no_cr (lines out : list str) :
  Forall (Forall (fun c => c <> cr)) lines ->
  game_loop lines lines 0 [] = Return out ->
  Forall (Forall (fun c => c <> cr)) out.
Proof.
  intros Hlines H.
  apply (game_loop_rule (fun _ acc => Forall (Forall (fun c => c <> cr)) acc)
           lines) with (rest := lines) (pre := []) (acc := []);
    [| done | done | done].
  clear H. intros pre line rest acc out0 Hl IH Hstep. rewrite Hl in Hstep.
  apply game_step_shape in Hstep as (before & after & Hin & ->).
  assert (Forall (fun ba => Forall (Forall (fun c => c <> cr)) (ba.1 ++ ba.2))
            insertions) as Hall.
  { apply (bool_decide_unpack _). by vm_compute. }
  rewrite Forall_forall in Hall. specialize (Hall _ Hin). cbn [fst snd] in Hall.
  apply Forall_app in Hall as [Hb Ha].
  rewrite Hl in Hlines. apply Forall_app in Hlines as [_ Hline].
  inversion_clear Hline.
  rewrite !Forall_app. split; [done |]. split; [done |]. by constructor.
Qed.

(** If the first test of the chain holds at some line, the loop's result
    holds the marker line of the click log. *)
Lemma game_loop_click_log (lines out : list str) (j : nat) (line prev : str) :
  lines !! j = Some line ->
  index lines (Z.of_nat j - 1) = Some prev ->
  str_in anchor_dataset line = true ->
  str_in (lit "async _handleCardClick") prev = true ->
  game_loop lines lines 0 [] = Return out ->
  lit "        // DEBUG: Click event occurred" ∈ out.
Proof.
  intros Hj Hprev Ha Hc H.
  apply (game_loop_rule
           (fun pre acc => (j < length pre)%nat ->
                           lit "        // DEBUG: Click event occurred" ∈ acc)
           lines) with (rest := lines) (pre := []) (acc := []) (out := out);
    [| done | cbn [length]; lia | done |].
  - clear H. intros pre line0 rest acc out0 Hl IH Hstep.
    rewrite length_app. cbn [length]. intros Hlt.
    destruct (decide (j < length pre)%nat) as [Hlt' | Hge].
    + rewrite Hl in Hstep.
      apply game_step_shape in Hstep as (before & after & _ & ->).
      rewrite elem_of_app. left. by apply IH.
    + assert (j = length pre) as -> by lia.
      rewrite Hl, list_lookup_middle in Hj by done. injection Hj as ->.
      rewrite (game_step_chain _ _ _ _ _ (getitem_index _ _ _ Hprev)), Ha, Hc in Hstep.
      cbn [andb] in Hstep. injection Hstep as <-.
      rewrite elem_of_app. right. rewrite elem_of_cons. right.
      by apply (list_elem_of_lookup_2 _ 1%nat).
  - by apply lookup_lt_Some in Hj.
Qed.

Lemma game_guard (content : str) :
  str_in marker content || str_in (lit "// " ++ marker) content
  = str_in marker content.
Proof.
  destruct (str_in marker content) eqn:E; [done |]. cbn [orb].
  destruct (str_in (lit "// " ++ marker) content) eqn:E'; [| done].
  apply str_in_spec in E' as (a & b & ->). rewrite <- E. symmetry.
  apply str_in_spec. exists (a ++ lit "// "), b. by rewrite <- !app_assoc.
Qed.

(** [add_logs_to_game_js] on a world whose game.js can be read. *)
Lemma game_js_run (w : IO.world) (raw : str) :
  IO.files w !! game_file_path = Some raw ->
  add_logs_to_game_js w =
    let content := IO.universal_newlines raw in
    if str_in marker content
    then IO.print (lit "[SKIP] game.js already has debug logs") w
    else
      match game_loop (split nl content) (split nl content) 0 [] with
      | Return new_lines =>
        IO.bind (IO.write_text game_file_path (join [nl] new_lines))
          (fun _ => IO.print (lit "[OK] Updated game.js")) w
      | Raise e => (Raise e, w)
      end.
Proof.
  intros Hraw. unfold add_logs_to_game_js, IO.bind at 1, IO.read_text.
  rewrite Hraw, game_guard. cbn zeta.
  destruct (str_in marker _); [done |].
  unfold IO.bind at 1, IO.lift. by destruct (game_loop _ _ _ _).
Qed.

End FinalFacts.

(** * The claims *)

(** C2, as the code has it. In the functions that test a marker (one per
    file: the three functions of add_debug_final.py and
    [add_logs_to_board_event_handler_js] of add_debug_logs.py), a marker
    found in the text read from the file ends the run at once: the function
    only prints its skip message, whatever else the text holds; no file is
    written. *)
Theorem marker_guard_skips (f : IO.M unit) (path : string) (m msg : str)
    (w : IO.world) (raw : str) :
  guarded f path m msg ->
  IO.files w !! path = Some raw ->
  Py.str_in m (IO.universal_newlines raw) = true ->
  f w = IO.print msg w.
Proof.
  intros Hg Hraw Hm. destruct Hg.
  - rewrite (game_js_run _ _ Hraw). cbn zeta. by rewrite Hm.
  - unfold Final.add_logs_to_view_js, IO.bind at 1, IO.read_text.
    by rewrite Hraw, Hm.
  - unfold Final.add_logs_to_interaction_js, IO.bind at 1, IO.read_text.
    by rewrite Hraw, Hm.
  - unfold Logs.add_logs_to_board_event_handler_js, IO.bind at 1, IO.read_text.
    by rewrite Hraw, Hm.
Qed.

Lemma marker_guard_skips_witness :
  let w := posix_world
             [(Final.game_file_path,
               Py.text ["// DEBUG: Click event occurred";
                        "if (this.state.turnPlayer === 'cpu' && owner === 'player') {"])] in
  Final.add_logs_to_game_js w
  = IO.print (Py.lit "[SKIP] game.js already has debug logs") w.
Proof.
  intros w.
  apply (marker_guard_skips _ Final.game_file_path Final.marker _ w
           (Py.text ["// DEBUG: Click event occurred";
                     "if (this.state.turnPlayer === 'cpu' && owner === 'player') {"])).
  - constructor.
  - vm_compute. reflexivity.
  - vm_compute. reflexivity.
Defined.

(** C2 as stated fails where there is no marker test. The file already
    holds the line that the second rule of [add_logs_to_game_js] in
    add_debug_logs.py inserts, which is what would mark the rule as
    applied; the anchor still matches and the line is inserted again. *)
Lemma unguarded_rule_inserts_again :
  let l := "            console.log('⛔ Click blocked: isProcessing = true');"%string in
  let content :=
    Py.text ["// 処理中の場合はクリックを無視"; "if (this.state.isProcessing) {"; l] in
  let w := posix_world [(Logs.game_file_path, content)] in
  Py.str_in (Py.lit "console.log('⛔ Click blocked: isProcessing = true');") content
  = true
  /\ (Logs.add_logs_to_game_js w).1 = Return tt
  /\ IO.files (Logs.add_logs_to_game_js w).2 !! Logs.game_file_path
     = Some (Py.text ["// 処理中の場合はクリックを無視";
                      "if (this.state.isProcessing) {"; l; l])
  /\ IO.written (Logs.add_logs_to_game_js w).2 = [Logs.game_file_path].
Proof. intros l content w. repeat apply conj; vm_compute; reflexivity. Qed.

(** When [add_logs_to_game_js] raises [IndexError], and that it does so
    before writing. *)
Lemma game_js_raises_iff (w : IO.world) (raw : str) :
  IO.files w !! Final.game_file_path = Some raw ->
  Py.str_in Final.marker (IO.universal_newlines raw) = false ->
  ((exists l,
      last (Py.split Py.nl (IO.universal_newlines raw)) = Some l
      /\ Py.str_eqb (Py.strip l) Final.anchor_phases = true)
   <-> (Final.add_logs_to_game_js w).1 = Raise IndexError)
  /\ ((Final.add_logs_to_game_js w).1 = Raise IndexError ->
      (Final.add_logs_to_game_js w).2 = w).
Proof.
  intros Hraw Hm. rewrite (game_js_run _ _ Hraw). cbn zeta. rewrite Hm.
  pose proof (game_loop_raises (Py.split Py.nl (IO.universal_newlines raw))
                _ [] [] eq_refl IndexError) as Hloop.
  change (Z.of_nat (length [])) with 0 in Hloop.
  destruct (Final.game_loop _ _ 0 []) as [out | e] eqn:E.
  - assert (((IO.write_text Final.game_file_path (Py.join [Py.nl] out);;
              IO.print (Py.lit "[OK] Updated game.js"))%io w).1
            <> Raise IndexError) as Hw.
    { unfold IO.bind, IO.write_text. by case_bool_decide. }
    split; [split |]; [| done | done].
    intros Hl. pose proof (proj2 Hloop (conj eq_refl Hl)). congruence.
  - split; [| done]. cbn [fst]. split.
    + intros Hl. pose proof (proj2 Hloop (conj eq_refl Hl)). congruence.
    + intros [= ->]. apply Hloop. congruence.
Qed.

(** C10. When game.js lacks the marker, [add_logs_to_game_js] of
    add_debug_final.py raises [IndexError] exactly when the last line of
    the text strips to ["// Handle different phases"]: there the test of
    [lines[i+1]] reads past the end. The file is left as it was, and
    nothing catches the exception: [__main__] ends with it. *)
Theorem game_js_index_error (w : IO.world) (raw : str) :
  IO.files w !! Final.game_file_path = Some raw ->
  Py.str_in Final.marker (IO.universal_newlines raw) = false ->
  ((exists l,
      last (Py.split Py.nl (IO.universal_newlines raw)) = Some l
      /\ Py.str_eqb (Py.strip l) Final.anchor_phases = true)
   <-> (Final.add_logs_to_game_js w).1 = Raise IndexError)
  /\ ((Final.add_logs_to_game_js w).1 = Raise IndexError ->
      (Final.add_logs_to_game_js w).2 = w
      /\ Final.main w
         = (Raise IndexError, (IO.print (Py.lit "Adding debug logs...") w).2)).
Proof.
  intros Hraw Hm.
  destruct (game_js_raises_iff w raw Hraw Hm) as [Hiff Hsame].
  split; [done |]. intros Hr. split; [by apply Hsame |].
  destruct (game_js_raises_iff (IO.print (Py.lit "Adding debug logs...") w).2 raw)
    as [Hiff' Hsame']; [done | done |].
  assert ((Final.add_logs_to_game_js
             (IO.print (Py.lit "Adding debug logs...") w).2).1
          = Raise IndexError) as Hr' by by apply Hiff', Hiff.
  unfold Final.main. rewrite (bind_return _ _ _ _ _ (print_returns _ w)).
  apply bind_raise.
  rewrite (surjective_pairing (Final.add_logs_to_game_js _)).
  by rewrite Hr', (Hsame' Hr').
Qed.

Lemma game_js_index_error_witness :
  let w := posix_world
             [(Final.game_file_path,
               Py.text ["switch (this.state.phase) {";
                        "        // Handle different phases"])] in
  (Final.add_logs_to_game_js w).1 = Raise IndexError
  /\ (Final.add_logs_to_game_js w).2 = w
  /\ Final.main w
     = (Raise IndexError, (IO.print (Py.lit "Adding debug logs...") w).2).
Proof.
  intros w.
  pose proof (game_js_index_error w
                (Py.text ["switch (this.state.phase) {";
                          "        // Handle different phases"])) as [H1 H2].
  - vm_compute. reflexivity.
  - vm_compute. reflexivity.
  - assert ((Final.add_logs_to_game_js w).1 = Raise IndexError) as Hr.
    { apply H1. eexists. split; vm_compute; reflexivity. }
    split; [exact Hr | exact (H2 Hr)].
Defined.

(** The case of game.js in add_debug_final.py when nothing is inserted:
    the file has no marker and the loop adds no line. The function still
    opens the file for writing and writes back the text it read, line
    endings as the platform writes them, then reports "[OK]". *)
Theorem unchanged_text_is_still_written (w : IO.world) (raw : str)
    (out : list str) :
  IO.files w !! Final.game_file_path = Some raw ->
  Py.str_in Final.marker (IO.universal_newlines raw) = false ->
  Final.game_file_path ∉ IO.readonly w ->
  Final.game_loop (Py.split Py.nl (IO.universal_newlines raw))
    (Py.split Py.nl (IO.universal_newlines raw)) 0 [] = Return out ->
  length out = length (Py.split Py.nl (IO.universal_newlines raw)) ->
  Final.add_logs_to_game_js w =
    (Return tt,
     {| IO.platform_of := IO.platform_of w;
        IO.files :=
          <[Final.game_file_path :=
              IO.write_newlines (IO.platform_of w) (IO.universal_newlines raw)]>
            (IO.files w);
        IO.readonly := IO.readonly w;
        IO.stdout := IO.stdout w ++ [Py.lit "[OK] Updated game.js"];
        IO.written := IO.written w ++ [Final.game_file_path] |}).
Proof.
  intros Hraw Hm Hro Hloop Hlen. rewrite (game_js_run _ _ Hraw). cbn zeta.
  rewrite Hm, Hloop.
  apply game_loop_no_insertion in Hloop as [_ ->]; [| done].
  rewrite join_split. unfold IO.bind, IO.write_text, IO.print.
  by rewrite bool_decide_eq_false_2.
Qed.

Lemma unchanged_text_is_still_written_witness :
  let w := posix_world [(Final.game_file_path, Py.text ["let x = 1;"; ""])] in
  IO.written (Final.add_logs_to_game_js w).2 = [Final.game_file_path].
Proof.
  intros w.
  rewrite (unchanged_text_is_still_written w (Py.text ["let x = 1;"; ""])
             [Py.lit "let x = 1;"; Py.lit ""]).
  - reflexivity.
  - vm_compute. reflexivity.
  - vm_compute. reflexivity.
  - apply (bool_decide_unpack _). vm_compute. exact I.
  - vm_compute. reflexivity.
  - vm_compute. reflexivity.
Defined.

(** C3 as stated fails: no rule matches this file, yet it is opened for
    writing. *)
Lemma no_match_still_writes :
  let content := Py.text ["let x = 1;"; ""] in
  let w := posix_world [(Final.game_file_path, content)] in
  Final.game_loop (Py.split Py.nl content) (Py.split Py.nl content) 0 []
  = Return (Py.split Py.nl content)
  /\ IO.written w = []
  /\ IO.written (Final.add_logs_to_game_js w).2 = [Final.game_file_path].
Proof. intros content w. repeat apply conj; vm_compute; reflexivity. Qed.

(** The test [line.strip() == anchor] alone: the comparison is
    case-sensitive (the anchor's characters must appear as they are) but
    not whitespace-exact: it holds exactly when the line is the anchor
    text with any whitespace before and after it. *)
Theorem exact_line_match_strips (a line : str) :
  a ∈ exact_line_anchors ->
  (Py.str_eqb (Py.strip line) a = true <->
   exists ws1 ws2,
     Forall (fun c => Py.is_space c = true) ws1
     /\ Forall (fun c => Py.is_space c = true) ws2
     /\ line = ws1 ++ a ++ ws2).
Proof.
  intros Ha. apply strip_eq_iff.
  unfold exact_line_anchors in Ha.
  rewrite !elem_of_cons, elem_of_nil in Ha.
  destruct Ha as [-> | [-> | [-> | [-> | [-> | []]]]]]; by vm_compute.
Qed.

Lemma exact_line_match_strips_witness :
  Py.str_eqb (Py.strip (Py.lit "   // Handle different phases  "))
    Final.anchor_phases = true.
Proof.
  apply (exact_line_match_strips Final.anchor_phases
           (Py.lit "   // Handle different phases  ")).
  - apply (list_elem_of_lookup_2 _ 4%nat). reflexivity.
  - exists (Py.lit "   "), (Py.lit "  ").
    split; [by repeat constructor |]. split; [by repeat constructor |].
    vm_compute. reflexivity.
Defined.

(** C4 as stated fails: a line with other leading and trailing whitespace
    than the anchor text, a tab among it, still matches; a line in another
    case does not. *)
Lemma padded_line_matches :
  let line := Py.lit "  if (this.state.turnPlayer === 'cpu' && owner === 'player') {	 " in
  let upper := Py.lit "IF (this.state.turnPlayer === 'cpu' && owner === 'player') {" in
  line <> Final.anchor_cpu_turn
  /\ Final.game_loop [line] [line] 0 [] = Return [line; Final.log_cpu_turn]
  /\ Final.game_loop [upper] [upper] 0 [] = Return [upper].
Proof.
  intros line upper. repeat apply conj; [| vm_compute; reflexivity ..].
  vm_compute. discriminate.
Qed.

(** C7, as the code has it. Whatever the line and its indentation, an
    iteration of the game.js loop of add_debug_final.py copies the line and
    puts around it one of the fixed blocks of the script; the lines of
    these blocks are literals indented by 0, 8, 12 or 16 spaces. *)
Theorem inserted_lines_are_fixed (pre rest : list str) (line : str)
    (acc out : list str) :
  Final.game_step (pre ++ line :: rest) (Z.of_nat (length pre)) line acc
  = Return out ->
  exists before after,
    (before, after) ∈ insertions
    /\ out = acc ++ before ++ line :: after
    /\ forallb fixed_indent (before ++ after) = true.
Proof.
  intros Hstep.
  apply game_step_shape in Hstep as (before & after & Hin & ->).
  exists before, after. split; [done |]. split; [done |].
  assert (forallb (fun ba => forallb fixed_indent (ba.1 ++ ba.2)) insertions
          = true) as Hall by by vm_compute.
  rewrite forallb_forall in Hall.
  apply (Hall (before, after)). by apply list_elem_of_In.
Qed.

Lemma inserted_lines_are_fixed_witness :
  let line := Py.lit "if (this.state.turnPlayer === 'cpu' && owner === 'player') {" in
  exists before after,
    (before, after) ∈ insertions
    /\ [line; Final.log_cpu_turn] = [] ++ before ++ line :: after
    /\ forallb fixed_indent (before ++ after) = true.
Proof.
  intros line.
  apply (inserted_lines_are_fixed [] [] line [] [line; Final.log_cpu_turn]).
  vm_compute. reflexivity.
Defined.

(** C7 as stated fails: the anchor line has no indentation, the line
    inserted after it is indented by twelve spaces. *)
Lemma inserted_indent_differs :
  let line := Py.lit "if (this.state.turnPlayer === 'cpu' && owner === 'player') {" in
  Final.game_loop [line] [line] 0 [] = Return [line; Final.log_cpu_turn]
  /\ leading_ws line = []
  /\ leading_ws Final.log_cpu_turn = replicate 12 32%N.
Proof. intros line. repeat apply conj; vm_compute; reflexivity. Qed.

(** Every target starts by reading its file. *)
Lemma target_unreadable (main : IO.M unit) (banner : str)
    (targets : list (IO.M unit * string)) (f : IO.M unit) (path : string)
    (w : IO.world) :
  script main banner targets ->
  (f, path) ∈ targets ->
  IO.files w !! path = None ->
  f w = (Raise (OSError path), w).
Proof.
  intros Hs Hin Hnone.
  destruct Hs; unfold final_targets, logs_targets, simple_targets in Hin;
    rewrite ?elem_of_cons, elem_of_nil in Hin;
    repeat (destruct Hin as [[= -> ->] | Hin]; [by apply bind_raise, read_missing |]);
    done.
Qed.

(** When the targets before the [k]-th return and the [k]-th raises,
    the whole sequence raises, whatever follows it. *)
Lemma run_prefix_raise (trailer : IO.M unit) :
  forall (k : nat) (fs : list (IO.M unit * string)) (f : IO.M unit)
         (path : string) (w0 w1 w2 : IO.world) (e : exn),
    fs !! k = Some (f, path) ->
    run_all (take k fs) w0 = (Return tt, w1) ->
    f w1 = (Raise e, w2) ->
    fold_right (fun g c => IO.bind g.1 (fun _ => c)) trailer fs w0 = (Raise e, w2).
Proof.
  induction k as [|k IH]; intros [|g fs] f path w0 w1 w2 e Hk Hpre Hf; try done.
  - injection Hk as ->. injection Hpre as <-. cbn [fold_right fst].
    by apply bind_raise.
  - cbn [lookup list_lookup] in Hk. cbn [take run_all fold_right] in Hpre.
    apply bind_inv in Hpre as ([] & w' & Hg & Hpre).
    cbn [fold_right]. rewrite (bind_return _ _ _ _ _ Hg).
    by eapply IH.
Qed.

(** An exception raised by a target ends [__main__] there. *)
Lemma target_raise_aborts (main : IO.M unit) (banner : str)
    (targets : list (IO.M unit * string)) (k : nat) (f : IO.M unit)
    (path : string) (w w1 w2 : IO.world) (e : exn) :
  script main banner targets ->
  targets !! k = Some (f, path) ->
  IO.bind (IO.print banner) (fun _ => run_all (take k targets)) w = (Return tt, w1) ->
  f w1 = (Raise e, w2) ->
  main w = (Raise e, w2).
Proof.
  intros Hs Hk Hpre Hf.
  apply bind_inv in Hpre as ([] & w0 & Hp & Hpre).
  destruct Hs.
  - unfold Final.main. rewrite (bind_return _ _ _ _ _ Hp).
    exact (run_prefix_raise _ k final_targets f path w0 w1 w2 e Hk Hpre Hf).
  - unfold Logs.main. rewrite (bind_return _ _ _ _ _ Hp).
    exact (run_prefix_raise _ k logs_targets f path w0 w1 w2 e Hk Hpre Hf).
  - unfold Simple.main. rewrite (bind_return _ _ _ _ _ Hp).
    exact (run_prefix_raise _ k simple_targets f path w0 w1 w2 e Hk Hpre Hf).
Qed.

(** C8, as the code has it. Nothing catches an exception in the three
    scripts. When the targets before the [k]-th have returned and the file
    of the [k]-th cannot be read, [__main__] stops there with that
    [OSError]: the earlier targets keep what they wrote and no later target
    is opened. The same holds for any exception the [k]-th target raises,
    a failing [open] for writing included. *)
Theorem io_error_aborts_run (main : IO.M unit) (banner : str)
    (targets : list (IO.M unit * string)) (k : nat) (f : IO.M unit)
    (path : string) (w w1 : IO.world) :
  script main banner targets ->
  targets !! k = Some (f, path) ->
  IO.bind (IO.print banner) (fun _ => run_all (take k targets)) w = (Return tt, w1) ->
  (IO.files w1 !! path = None -> main w = (Raise (OSError path), w1))
  /\ (forall e w2, f w1 = (Raise e, w2) -> main w = (Raise e, w2)).
Proof.
  intros Hs Hk Hpre. split.
  - intros Hnone. eapply target_raise_aborts; [done | done | done |].
    eapply target_unreadable; [done | | done].
    by eapply list_elem_of_lookup_2.
  - intros e w2 Hf. by eapply target_raise_aborts.
Qed.

Lemma io_error_aborts_run_witness :
  let w := posix_world
             [(Final.interaction_file_path,
               Py.lit "const object = this._findInteractiveParent(firstHit.object);")] in
  Final.main w
  = (Raise (OSError Final.game_file_path),
     (IO.print (Py.lit "Adding debug logs...") w).2).
Proof.
  intros w.
  apply (io_error_aborts_run Final.main (Py.lit "Adding debug logs...")
           final_targets 0 Final.add_logs_to_game_js Final.game_file_path w
           (IO.print (Py.lit "Adding debug logs...") w).2).
  - constructor.
  - reflexivity.
  - reflexivity.
  - vm_compute. reflexivity.
Defined.

(** C8 as stated fails: game.js is missing, interaction.js is there and
    would be changed by its function, but the run stops at game.js and
    leaves interaction.js as it was. *)
Lemma later_targets_not_processed :
  let w := posix_world
             [(Final.interaction_file_path,
               Py.lit "const object = this._findInteractiveParent(firstHit.object);")] in
  (Final.main w).1 = Raise (OSError Final.game_file_path)
  /\ IO.files (Final.main w).2 !! Final.interaction_file_path
     = IO.files w !! Final.interaction_file_path
  /\ IO.written (Final.main w).2 = []
  /\ (Final.add_logs_to_interaction_js w).1 = Return tt
  /\ IO.written (Final.add_logs_to_interaction_js w).2
     = [Final.interaction_file_path].
Proof. intros w. repeat apply conj; vm_compute; reflexivity. Qed.

(** The number of "CPU turn" log lines: the game.js loop of
    add_debug_final.py adds as many of them as there are lines that strip
    to the anchor. *)
Theorem every_matching_line_gets_insertion (lines out : list str) :
  Final.game_loop lines lines 0 [] = Return out ->
  count (Py.str_eqb Final.log_cpu_turn) out
  = (count (Py.str_eqb Final.log_cpu_turn) lines
     + count (fun l => Py.str_eqb (Py.strip l) Final.anchor_cpu_turn) lines)%nat.
Proof.
  intros H.
  apply (game_loop_rule
           (fun pre acc =>
              count (Py.str_eqb Final.log_cpu_turn) acc
              = (count (Py.str_eqb Final.log_cpu_turn) pre
                 + count (fun l => Py.str_eqb (Py.strip l) Final.anchor_cpu_turn) pre)%nat)
           lines) with (rest := lines) (pre := []) (acc := []);
    [| done | done | done].
  clear. intros pre line rest acc out -> IH Hstep.
  apply game_step_cpu_count in Hstep. rewrite Hstep, IH.
  rewrite !count_app, !count_cons. cbn [count List.filter length]. lia.
Qed.

Lemma every_matching_line_gets_insertion_witness :
  let a := Py.lit "if (this.state.turnPlayer === 'cpu' && owner === 'player') {" in
  count (Py.str_eqb Final.log_cpu_turn)
    [a; Final.log_cpu_turn; a; Final.log_cpu_turn]
  = (count (Py.str_eqb Final.log_cpu_turn) [a; a]
     + count (fun l => Py.str_eqb (Py.strip l) Final.anchor_cpu_turn) [a; a])%nat.
Proof.
  intros a.
  apply (every_matching_line_gets_insertion [a; a]
           [a; Final.log_cpu_turn; a; Final.log_cpu_turn]).
  vm_compute. reflexivity.
Defined.

(** C5 as stated fails: two lines satisfy the anchor of one rule and each
    gets the insertion. *)
Lemma second_match_also_inserted :
  let a := Py.lit "if (this.state.turnPlayer === 'cpu' && owner === 'player') {" in
  let b := Py.lit "    if (this.state.turnPlayer === 'cpu' && owner === 'player') {" in
  Final.game_loop [a; b] [a; b] 0 []
  = Return [a; Final.log_cpu_turn; b; Final.log_cpu_turn].
Proof. intros a b. vm_compute. reflexivity. Qed.

(** C1, as the code has it. In add_debug_final.py, when a run of
    [add_logs_to_game_js] returns and some line passed the first test of
    the chain (so the click log, which holds the marker, is in the file
    afterwards, as it also is when the run itself skipped), a second run
    only prints the skip message for the file: it writes nothing. *)
Theorem rerun_after_click_log_skips (w w1 : IO.world) (raw : str) (j : nat)
    (line prev : str) :
  IO.files w !! Final.game_file_path = Some raw ->
  Py.split Py.nl (IO.universal_newlines raw) !! j = Some line ->
  Py.index (Py.split Py.nl (IO.universal_newlines raw)) (Z.of_nat j - 1)
  = Some prev ->
  Py.str_in Final.anchor_dataset line = true ->
  Py.str_in (Py.lit "async _handleCardClick") prev = true ->
  Final.add_logs_to_game_js w = (Return tt, w1) ->
  Final.add_logs_to_game_js w1
  = IO.print (Py.lit "[SKIP] game.js already has debug logs") w1.
Proof.
  intros Hraw Hj Hprev Ha Hc Hrun.
  rewrite (game_js_run _ _ Hraw) in Hrun. cbn zeta in Hrun.
  destruct (Py.str_in Final.marker (IO.universal_newlines raw)) eqn:Hm.
  - injection Hrun as <-.
    rewrite (game_js_run _ raw) by done. cbn zeta. by rewrite Hm.
  - destruct (Final.game_loop _ _ 0 []) as [out | e] eqn:Hloop; [| done].
    unfold IO.bind, IO.write_text in Hrun.
    case_bool_decide; [done |]. injection Hrun as <-.
    assert (Forall (fun c => c <> Py.cr) (Py.join [Py.nl] out)) as Hcr.
    { apply join_forall; [by repeat constructor |].
      eapply game_loop_no_cr; [| exact Hloop].
      apply split_forall, Forall_forall. intros c Hc' ->.
      by apply (universal_newlines_no_cr raw). }
    erewrite game_js_run by (cbn [IO.files IO.print snd]; apply lookup_insert_eq).
    cbn zeta. cbn [IO.platform_of IO.print snd].
    rewrite newline_roundtrip
      by (intros Hin; rewrite Forall_forall in Hcr; by apply (Hcr _ Hin)).
    assert (Py.str_in Final.marker (Py.join [Py.nl] out) = true) as ->; [| done].
    apply (str_in_join _ _ (Py.lit "        // DEBUG: Click event occurred")).
    + by eapply game_loop_click_log.
    + by vm_compute.
Qed.

Lemma rerun_after_click_log_skips_witness :
  let raw := Py.text ["    async _handleCardClick(dataset) {";
                      "        const { owner, zone, cardId, index } = dataset;";
                      "    }"] in
  let w := posix_world [(Final.game_file_path, raw)] in
  let w1 := (Final.add_logs_to_game_js w).2 in
  Final.add_logs_to_game_js w1
  = IO.print (Py.lit "[SKIP] game.js already has debug logs") w1.
Proof.
  intros raw w w1.
  apply (rerun_after_click_log_skips w w1 raw 1
           (Py.lit "        const { owner, zone, cardId, index } = dataset;")
           (Py.lit "    async _handleCardClick(dataset) {")).
  - vm_compute. reflexivity.
  - vm_compute. reflexivity.
  - vm_compute. reflexivity.
  - vm_compute. reflexivity.
  - vm_compute. reflexivity.
  - vm_compute. reflexivity.
Defined.

(** C1 as stated fails in both scripts. In add_debug_final.py a file in
    which only a later rule matches gets no marker, so the second run
    inserts again; add_debug_logs.py has no marker test for game.js and
    its anchor is still there after the first run. *)
Lemma second_run_inserts_again :
  let a := Py.lit "if (this.state.turnPlayer === 'cpu' && owner === 'player') {" in
  let w := posix_world [(Final.game_file_path, a)] in
  let w1 := (Final.add_logs_to_game_js w).2 in
  let w2 := (Final.add_logs_to_game_js w1).2 in
  let c := Py.text ["// 処理中の場合はクリックを無視"; "if (this.state.isProcessing) {"] in
  let l := Py.lit "            console.log('⛔ Click blocked: isProcessing = true');" in
  IO.files w1 !! Final.game_file_path
  = Some (Py.join [Py.nl] [a; Final.log_cpu_turn])
  /\ IO.files w2 !! Final.game_file_path
     = Some (Py.join [Py.nl] [a; Final.log_cpu_turn; Final.log_cpu_turn])
  /\ IO.stdout w2
     = [Py.lit "[OK] Updated game.js"; Py.lit "[OK] Updated game.js"]
  /\ Logs.game_subs c = c ++ Py.nl :: l
  /\ Logs.game_subs (Logs.game_subs c) = c ++ Py.nl :: l ++ Py.nl :: l.
Proof. intros a w w1 w2 c l. repeat apply conj; vm_compute; reflexivity. Qed.

(** The substitutions of [add_logs_to_game_js] in add_debug_logs.py and
    in add_debug_logs_simple.py keep every character of the text that is
    not whitespace, unchanged and in its order. *)
Theorem game_subs_keep_visible_text (content : str) :
  sublist (visible content) (visible (Logs.game_subs content))
  /\ sublist (visible content) (visible (Simple.game_subs content)).
Proof.
  split.
  - unfold Logs.game_subs.
    repeat (etrans; [| apply sub_visible; by vm_compute]). done.
  - unfold Simple.game_subs.
    repeat (etrans; [| apply sub_visible; by vm_compute]). done.
Qed.

(** C6 as stated fails: the tab that follows the anchor of the first
    pattern is not in the result; the template's spaces stand there. *)
Lemma whitespace_after_anchor_replaced :
  let content :=
    Py.text ["async _handleCardClick(dataset) {";
             "  const { owner, zone, cardId, index } = dataset;"]
    ++ [Py.nl; 9%N] ++ Py.lit "return;" in
  (9%N ∈ content)
  /\ (9%N ∉ Simple.game_subs content)
  /\ (9%N ∉ Logs.game_subs content)
  /\ Simple.game_subs content
     = Py.text ["async _handleCardClick(dataset) {";
                "  const { owner, zone, cardId, index } = dataset;";
                "";
                "        // DEBUG: Click event occurred";
                "        console.log('Card Click:', {";
                "            owner,";
                "            zone,";
                "            cardId,";
                "            index,";
                "            currentPhase: this.state.phase,";
                "            turnPlayer: this.state.turnPlayer,";
                "            isProcessing: this.state.isProcessing";
                "        });";
                "";
                "        return;"].
Proof.
  intros content. split; [| split; [| split]].
  - apply (bool_decide_unpack _). vm_compute. exact I.
  - apply (bool_decide_unpack _). vm_compute. exact I.
  - apply (bool_decide_unpack _). vm_compute. exact I.
  - vm_compute. reflexivity.
Qed.

(** C9, as the code has it. Nothing in [add_logs_to_game_js] of
    add_debug_logs.py looks for overlapping insertions or reports a
    conflict: whenever game.js can be read and written, the six
    substitutions are applied one after the other, the result is written
    and the run returns having printed only its "Updated" line. *)
Theorem game_subs_always_written (w : IO.world) (raw : str) :
  IO.files w !! Logs.game_file_path = Some raw ->
  Logs.game_file_path ∉ IO.readonly w ->
  Logs.add_logs_to_game_js w =
    (Return tt,
     {| IO.platform_of := IO.platform_of w;
        IO.files :=
          <[Logs.game_file_path :=
              IO.write_newlines (IO.platform_of w)
                (Logs.game_subs (IO.universal_newlines raw))]> (IO.files w);
        IO.readonly := IO.readonly w;
        IO.stdout :=
          IO.stdout w ++ [Py.lit "✅ Updated " ++ Py.lit Logs.game_file_path];
        IO.written := IO.written w ++ [Logs.game_file_path] |}).
Proof.
  intros Hraw Hro. unfold Logs.add_logs_to_game_js.
  rewrite (bind_return _ _ _ _ _ (read_present _ _ _ Hraw)). cbn zeta.
  unfold IO.bind, IO.write_text, IO.print.
  by rewrite bool_decide_eq_false_2.
Qed.

Lemma game_subs_always_written_witness :
  let raw :=
    Py.text ["async _handleCardClick(dataset) {";
             "  const { owner, zone, cardId, index } = dataset;";
             "  // Handle different phases";
             "  switch (this.state.phase) {"] in
  let w := posix_world [(Logs.game_file_path, raw)] in
  (Logs.add_logs_to_game_js w).1 = Return tt
  /\ IO.written (Logs.add_logs_to_game_js w).2 = [Logs.game_file_path].
Proof.
  intros raw w. rewrite (game_subs_always_written w raw).
  - split; reflexivity.
  - vm_compute. reflexivity.
  - apply (bool_decide_unpack _). vm_compute. exact I.
Defined.

(** C9 as stated fails. In add_debug_logs.py the first and the sixth
    pattern both insert between the "dataset" line and the "phases"
    comment; in add_debug_final.py the "CPU turn" rule inserts after line 0
    and the "phases" rule before line 1. Both insertions are made each
    time, the file is written and the run reports success. *)
Lemma overlapping_insertions_both_applied :
  let raw :=
    Py.text ["async _handleCardClick(dataset) {";
             "  const { owner, zone, cardId, index } = dataset;";
             "  // Handle different phases";
             "  switch (this.state.phase) {"] in
  let w := posix_world [(Logs.game_file_path, raw)] in
  let a := Py.lit "if (this.state.turnPlayer === 'cpu' && owner === 'player') {" in
  let b := Py.lit "// Handle different phases" in
  let c := Py.lit "switch (this.state.phase) {" in
  let w' := posix_world [(Final.game_file_path, Py.join [Py.nl] [a; b; c])] in
  (Logs.add_logs_to_game_js w).1 = Return tt
  /\ IO.stdout (Logs.add_logs_to_game_js w).2
     = [Py.lit "✅ Updated c:/Projects/pokemon-card-battle/pokemon-card-battle/src/js/game.js"]
  /\ IO.files (Logs.add_logs_to_game_js w).2 !! Logs.game_file_path
     = Some (Py.text
               ["async _handleCardClick(dataset) {";
                "  const { owner, zone, cardId, index } = dataset;";
                "";
                "        // 🔍 デバッグログ: クリックイベント発生";
                "        console.log('🖱️ Card Click:', {";
                "            owner,";
                "            zone,";
                "            cardId,";
                "            index,";
                "            currentPhase: this.state.phase,";
                "            turnPlayer: this.state.turnPlayer,";
                "            isProcessing: this.state.isProcessing";
                "        });";
                "";
                "        console.log('✅ Click allowed, processing...');";
                "";
                "";
                "        // Handle different phases";
                "  switch (this.state.phase) {"])
  /\ (Final.add_logs_to_game_js w').1 = Return tt
  /\ IO.stdout (Final.add_logs_to_game_js w').2 = [Py.lit "[OK] Updated game.js"]
  /\ IO.files (Final.add_logs_to_game_js w').2 !! Final.game_file_path
     = Some (Py.join [Py.nl]
               [a; Final.log_cpu_turn; Py.lit ""; Final.log_allowed; b; c]).
Proof.
  intros raw w a b c w'. repeat apply conj; vm_compute; reflexivity.
Qed.

(** * Further properties *)

(** ** The line loops of add_debug_final.py *)
Section LineLoops.
Import Py Final.

Ltac split_if :=
  match goal with
  | |- context [if ?b then _ else _] => destruct b
  end.

(** Once [lines[i-1]] is known to exist, the body of the interaction.js
    loop is a cascade of plain tests. *)
Lemma interaction_step_chain (lines : list str) (i : Z) (line prev : str)
    (acc : list str) :
  getitem lines (i - 1) = Return prev ->
  interaction_step lines i line acc =
    if str_in (lit "const object = this._findInteractiveParent(firstHit.object);") line
    then Return (acc ++ line :: mouse_down_log)
    else if str_in (lit "if (this.gameState && this.gameState.turnPlayer !== 'player') {") line
            && str_in (lit "CPUターン中はドラッグ不可") prev
    then Return (acc ++ [line; lit "                    console.log('DRAG BLOCKED: Wrong turn', { owner: object.userData.owner, currentPlayer: this.gameState.turnPlayer });"])
    else Return (acc ++ [line]).
Proof.
  intros Hprev. unfold interaction_step, and_then, append. rewrite Hprev.
  cbn [res_bind fold_left mouse_down_log]. rewrite <- !app_assoc. cbn [app].
  repeat (split_if; cbn [andb res_bind]; try reflexivity).
Qed.

(** Every iteration of the interaction.js loop returns, having copied the
    line and put some lines after it. *)
Lemma interaction_step_shape (pre rest : list str) (line : str) (acc : list str) :
  exists after,
    interaction_step (pre ++ line :: rest) (Z.of_nat (length pre)) line acc
    = Return (acc ++ line :: after).
Proof.
  destruct (getitem_prev pre rest line) as [prev Hprev].
  rewrite (interaction_step_chain _ _ _ _ _ Hprev).
  repeat split_if; eauto.
Qed.

Lemma interaction_loop_rule (I : list str -> list str -> Prop) (lines : list str) :
  (forall pre line rest acc after,
     lines = pre ++ line :: rest ->
     I pre acc ->
     interaction_step lines (Z.of_nat (length pre)) line acc
     = Return (acc ++ line :: after) ->
     I (pre ++ [line]) (acc ++ line :: after)) ->
  forall rest pre acc,
    lines = pre ++ rest ->
    I pre acc ->
    exists out,
      interaction_loop lines rest (Z.of_nat (length pre)) acc = Return out
      /\ I lines out.
Proof.
  intros Hstep rest. induction rest as [|line rest IH]; intros pre acc Hl HI.
  - cbn [interaction_loop]. exists acc. by rewrite Hl, app_nil_r.
  - cbn [interaction_loop].
    destruct (interaction_step_shape pre rest line acc) as [after Hs].
    rewrite <- Hl in Hs. rewrite Hs. cbn [res_bind].
    replace (Z.of_nat (length pre) + 1) with (Z.of_nat (length (pre ++ [line])))
      by (rewrite length_app; cbn [length]; lia).
    apply IH.
    + by rewrite <- app_assoc.
    + by eapply Hstep.
Qed.

(** X1. The game.js loop of add_debug_final.py never drops, changes or
    reorders a line: when it returns, the lines it was given are a
    subsequence of its result. *)
Theorem game_loop_keeps_lines (lines out : list str) :
  game_loop lines lines 0 [] = Return out -> sublist lines out.
Proof.
  intros H.
  apply (game_loop_rule (fun pre acc => sublist pre acc) lines)
    with (rest := lines) (pre := []) (acc := []); [| done | done | done].
  clear. intros pre line rest acc out -> IH Hstep.
  apply game_step_shape in Hstep as (before & after & _ & ->).
  apply sublist_app; [done |]. apply sublist_inserts_l.
  apply sublist_skip, sublist_nil_l.
Qed.

Lemma game_loop_keeps_lines_witness :
  let a := lit "if (this.state.turnPlayer === 'cpu' && owner === 'player') {" in
  sublist [a; lit "}"] [a; log_cpu_turn; lit "}"].
Proof.
  intros a. apply (game_loop_keeps_lines [a; lit "}"] [a; log_cpu_turn; lit "}"]).
  vm_compute. reflexivity.
Defined.

(** X2. The interaction.js loop of add_debug_final.py always returns: it
    reads [lines[i-1]] only, which exists at every index (the last line at
    index 0). Its result keeps the lines it was given, in order. *)
Theorem interaction_loop_returns (lines : list str) :
  exists out,
    interaction_loop lines lines 0 [] = Return out /\ sublist lines out.
Proof.
  apply (interaction_loop_rule (fun pre acc => sublist pre acc) lines
           ltac:(intros pre line rest acc after _ IH _;
                 apply sublist_app; [done |];
                 apply sublist_skip, sublist_nil_l)
           lines [] []); done.
Qed.

(** X3. [add_logs_to_interaction_js] of add_debug_final.py returns
    normally whenever interaction.js can be read and written: it cannot
    raise [IndexError], unlike [add_logs_to_game_js]. *)
Theorem interaction_js_returns (w : IO.world) (raw : str) :
  IO.files w !! interaction_file_path = Some raw ->
  interaction_file_path ∉ IO.readonly w ->
  (add_logs_to_interaction_js w).1 = Return tt.
Proof.
  intros Hraw Hro. unfold add_logs_to_interaction_js.
  rewrite (bind_return _ _ _ _ _ (read_present _ _ _ Hraw)). cbn zeta.
  destruct (str_in _ _); [done |].
  destruct (interaction_loop_returns (split nl (IO.universal_newlines raw)))
    as (out & Hout & _).
  unfold IO.bind at 1, IO.lift. rewrite Hout.
  unfold IO.bind, IO.write_text, IO.print.
  by rewrite bool_decide_eq_false_2.
Qed.

Lemma interaction_js_returns_witness :
  let w := posix_world
             [(interaction_file_path,
               text ["if (this.gameState && this.gameState.turnPlayer !== 'player') {";
                     "// CPUターン中はドラッグ不可"])] in
  (add_logs_to_interaction_js w).1 = Return tt.
Proof.
  intros w.
  apply (interaction_js_returns w
           (text ["if (this.gameState && this.gameState.turnPlayer !== 'player') {";
                  "// CPUターン中はドラッグ不可"])).
  - vm_compute. reflexivity.
  - apply (bool_decide_unpack _). vm_compute. exact I.
Defined.

Lemma getitem_minus_one {A} (l : list A) (x : A) :
  last l = Some x -> getitem l (0 - 1) = Return x.
Proof.
  intros [l' ->]%last_Some. unfold getitem.
  change (0 - 1) with (-1). by rewrite index_last.
Qed.

(** X4. At the first line the loop of add_debug_final.py takes the last
    line of the file for the previous one ([lines[-1]]). The "dataset" rule
    and the "info" rule, which do not test [i > 0], fire there on the
    context found in the last line; the "processing" and "player turn"
    rules, which test it, never fire at the first line. *)
Theorem first_line_previous_is_last (line : str) (rest : list str)
    (lastl : str) (acc : list str) :
  last (line :: rest) = Some lastl ->
  (str_in anchor_dataset line = true ->
   str_in (lit "async _handleCardClick") lastl = true ->
   game_step (line :: rest) 0 line acc = Return (acc ++ line :: click_log))
  /\ (str_eqb (strip line) anchor_info = true ->
      str_in (lit "CPUのカードは情報表示のみ許可") lastl = true ->
      game_step (line :: rest) 0 line acc = Return (acc ++ [line; log_info]))
  /\ (str_eqb (strip line) anchor_processing = true ->
      game_step (line :: rest) 0 line acc = Return (acc ++ [line]))
  /\ (str_eqb (strip line) anchor_player_turn = true ->
      game_step (line :: rest) 0 line acc = Return (acc ++ [line])).
Proof.
  intros Hlast. apply getitem_minus_one in Hlast.
  rewrite (game_step_chain _ _ _ _ _ Hlast).
  assert (forall a, str_eqb (strip line) a = true ->
                    (44%N ∉ a) -> str_in anchor_dataset line = false) as Hno.
  { intros a Ha%str_eqb_eq Hc. apply (str_in_strip_absent _ _ 44%N);
      [| done | by rewrite Ha]. apply (bool_decide_unpack _). by vm_compute. }
  repeat apply conj.
  - intros -> ->. done.
  - intros Hs Hc. rewrite (Hno _ Hs) by (apply (bool_decide_unpack _); by vm_compute).
    apply str_eqb_eq in Hs. rewrite Hs, Hc.
    assert (str_eqb anchor_info anchor_processing = false) as -> by by vm_compute.
    assert (str_eqb anchor_info anchor_player_turn = false) as -> by by vm_compute.
    assert (str_eqb anchor_info anchor_info = true) as -> by by vm_compute.
    done.
  - intros Hs. rewrite (Hno _ Hs) by (apply (bool_decide_unpack _); by vm_compute).
    apply str_eqb_eq in Hs. rewrite Hs.
    assert (str_eqb anchor_processing anchor_processing = true) as -> by by vm_compute.
    assert (str_eqb anchor_processing anchor_player_turn = false) as -> by by vm_compute.
    assert (str_eqb anchor_processing anchor_info = false) as -> by by vm_compute.
    assert (str_eqb anchor_processing anchor_cpu_turn = false) as -> by by vm_compute.
    assert (str_eqb anchor_processing anchor_phases = false) as -> by by vm_compute.
    done.
  - intros Hs. rewrite (Hno _ Hs) by (apply (bool_decide_unpack _); by vm_compute).
    apply str_eqb_eq in Hs. rewrite Hs.
    assert (str_eqb anchor_player_turn anchor_processing = false) as -> by by vm_compute.
    assert (str_eqb anchor_player_turn anchor_player_turn = true) as -> by by vm_compute.
    assert (str_eqb anchor_player_turn anchor_info = false) as -> by by vm_compute.
    assert (str_eqb anchor_player_turn anchor_cpu_turn = false) as -> by by vm_compute.
    assert (str_eqb anchor_player_turn anchor_phases = false) as -> by by vm_compute.
    done.
Qed.

Lemma first_line_previous_is_last_witness :
  let line := lit "  if (zone === 'active' || zone === 'bench') {" in
  let rest := [lit "}"; lit "// CPUのカードは情報表示のみ許可"] in
  game_step (line :: rest) 0 line [] = Return ([] ++ [line; log_info]).
Proof.
  intros line rest.
  apply (first_line_previous_is_last line rest
           (lit "// CPUのカードは情報表示のみ許可") []).
  - vm_compute. reflexivity.
  - vm_compute. reflexivity.
  - vm_compute. reflexivity.
Defined.

End LineLoops.

(** ** The substitutions of the three scripts *)
Section Substitutions.
Import Py Re.

Lemma re_match_lit_start (t : str) (p : list item) (s : str) (pos : nat)
    (opens : list nat) (caps : list (nat * nat)) r :
  re_match (Lit t :: p) s pos opens caps = Some r -> startswith t s = true.
Proof. cbn [re_match]. by destruct (startswith t s). Qed.

(** A whole-group pattern captures exactly what it matches. *)
Lemma re_match_body (p : list item) :
  forall s pos o e cs,
    body_then_close p = true ->
    re_match p s pos [o] [] = Some (e, cs) ->
    cs = [(o, e)].
Proof.
  induction p as [|i p IH]; intros s pos o e cs Hb Hm; [done |].
  destruct i; cbn [body_then_close] in Hb.
  - apply re_match_lit in Hm. by eapply IH.
  - apply re_match_spaces in Hm as (k & _ & Hm). by eapply IH.
  - apply re_match_any in Hm as (k & Hm). by eapply IH.
  - done.
  - destruct p; [| done]. cbn [re_match rev app] in Hm. by injection Hm as <- <-.
Qed.

Lemma re_match_whole (p : list item) (s : str) (len : nat)
    (caps : list (nat * nat)) :
  whole_group p = true ->
  re_match p s 0 [] [] = Some (len, caps) ->
  caps = [(0%nat, len)].
Proof.
  destruct p as [|[] p]; try done. cbn [whole_group re_match].
  intros Hb Hm. by eapply re_match_body.
Qed.

Lemma only_inserts_keep (t x a b : str) :
  only_inserts t a b -> only_inserts t (x ++ a) (x ++ b).
Proof. intros H. induction x as [|c x IH]; [done |]. by constructor. Qed.

Lemma only_inserts_refl (t a : str) : only_inserts t a a.
Proof. induction a; by constructor. Qed.

(** [re.sub] with an inserting pattern and template only inserts the
    template's text. *)
Lemma sub_scan_only_inserts (p : list item) (tpl : list titem) :
  inserting p tpl = true ->
  forall s limit skip,
    only_inserts (tpl_text tpl) (drop skip s) (sub_scan p tpl limit skip s).
Proof.
  intros [Hw Ht]%andb_true_iff.
  assert (forall s len caps,
            re_match p s 0 [] [] = Some (len, caps) ->
            forall a b,
              only_inserts (tpl_text tpl) a b ->
              only_inserts (tpl_text tpl) (take len s ++ a) (expand tpl caps s ++ b))
    as Hcover.
  { intros s len caps Hm a b Hab.
    rewrite (re_match_whole _ _ _ _ Hw Hm).
    destruct tpl as [|[x | [|[|n]]] [|[y | [|[|m]]] [|]]]; try done;
      unfold expand, tpl_text in Hab |- *;
      cbn [flat_map group lookup list_lookup app] in Hab |- *;
      rewrite ?app_nil_r in Hab;
      rewrite ?app_nil_r, ?Nat.sub_0_r, ?drop_0, <- ?app_assoc.
    - apply oi_insert. by apply only_inserts_keep.
    - apply only_inserts_keep. by apply oi_insert. }
  induction s as [|c s IH]; intros limit skip.
  - rewrite drop_nil. destruct skip; cbn [sub_scan]; [| constructor].
    destruct (match limit with Some 0%nat => None | _ => re_match p [] 0 [] [] end)
      as [[len caps] |] eqn:Hm; [| constructor].
    assert (re_match p [] 0 [] [] = Some (len, caps)) as Hm'
      by (destruct limit as [[|n] |]; done).
    specialize (Hcover _ _ _ Hm' [] [] (oi_nil _)).
    by rewrite take_nil in Hcover.
  - destruct skip as [|k]; cbn [sub_scan]; [| apply IH].
    rewrite drop_0.
    destruct (match limit with Some 0%nat => None | _ => re_match p (c :: s) 0 [] [] end)
      as [[len caps] |] eqn:Hm.
    + assert (re_match p (c :: s) 0 [] [] = Some (len, caps)) as Hm'
        by (destruct limit as [[|n] |]; done).
      destruct len as [|k].
      * apply (Hcover _ _ _ Hm' (c :: s)). constructor.
        specialize (IH (spend limit) 0%nat). by rewrite drop_0 in IH.
      * rewrite <- (take_drop (S k) (c :: s)) at 1.
        apply (Hcover _ _ _ Hm'). apply IH.
    + constructor. specialize (IH limit 0%nat). by rewrite drop_0 in IH.
Qed.

Lemma sub_only_inserts (p : list item) (tpl : list titem) (s : str) (count : nat) :
  inserting p tpl = true ->
  only_inserts (tpl_text tpl) s (sub p tpl s count).
Proof.
  intros H. unfold sub. rewrite <- (drop_0 s) at 1. by apply sub_scan_only_inserts.
Qed.

(** X5. In all three scripts the substitution of [add_logs_to_view_js]
    only inserts the text of its template: the result is the text read
    with copies of the log block put in, and no character of the text is
    removed or changed. *)
Theorem view_subs_only_insert (content : str) :
  only_inserts (tpl_text Final.view_replacement) content
    (sub Final.view_pattern Final.view_replacement content 1)
  /\ only_inserts (tpl_text Logs.view_replacement) content
       (sub Logs.view_pattern Logs.view_replacement content 0)
  /\ only_inserts (tpl_text Simple.view_replacement) content
       (sub Simple.view_pattern Simple.view_replacement content 0).
Proof. repeat apply conj; apply sub_only_inserts; by vm_compute. Qed.

(** X6. The two substitutions of [add_logs_to_interaction_js] in
    add_debug_logs.py and in add_debug_logs_simple.py keep every character
    that is not whitespace, unchanged and in order. *)
Theorem interaction_subs_keep_visible_text (content : str) :
  sublist (visible content)
    (visible
       (sub Logs.interaction_pattern2 Logs.interaction_replacement2
          (sub Logs.interaction_pattern Logs.interaction_replacement content 0) 0))
  /\ sublist (visible content)
       (visible
          (sub Simple.interaction_pattern2 Simple.interaction_replacement2
             (sub Simple.interaction_pattern Simple.interaction_replacement content 0) 1)).
Proof.
  split; repeat (etrans; [| apply sub_visible; by vm_compute]); done.
Qed.

Lemma str_in_drop (t s : str) (k : nat) :
  str_in t (drop k s) = true -> str_in t s = true.
Proof.
  intros H. rewrite <- (take_drop k s), <- (app_nil_r (drop k s)).
  by apply str_in_app.
Qed.

(** A match needs every literal of the pattern to occur in the text. *)
Lemma re_match_literals (t : str) (p : list item) :
  forall s pos opens caps r,
    Lit t ∈ p ->
    re_match p s pos opens caps = Some r ->
    str_in t s = true.
Proof.
  induction p as [|i p IH]; intros s pos opens caps r Hin Hm;
    [by apply elem_of_nil in Hin |].
  apply elem_of_cons in Hin as [<- | Hin].
  - apply re_match_lit_start, startswith_spec in Hm as [rest ->].
    apply (str_in_app t [] t rest), str_in_spec. exists [], []. by rewrite app_nil_r.
  - destruct i.
    + apply re_match_lit in Hm. eapply str_in_drop, IH; eauto.
    + apply re_match_spaces in Hm as (k & _ & Hm). eapply str_in_drop, IH; eauto.
    + apply re_match_any in Hm as (k & Hm). eapply str_in_drop, IH; eauto.
    + cbn [re_match] in Hm. eauto.
    + cbn [re_match] in Hm. destruct opens; [done | eauto].
Qed.

(** Where the pattern matches nowhere, [re.sub] returns the text. *)
Lemma sub_scan_no_match (p : list item) (tpl : list titem) :
  forall s limit,
    (forall k, re_match p (drop k s) 0 [] [] = None) ->
    sub_scan p tpl limit 0 s = s.
Proof.
  induction s as [|c s IH]; intros limit Hno.
  - pose proof (Hno 0%nat) as H0. cbn [drop] in H0.
    cbn [sub_scan]. rewrite H0. by destruct limit as [[|n] |].
  - pose proof (Hno 0%nat) as H0. cbn [drop] in H0.
    cbn [sub_scan]. rewrite H0.
    destruct limit as [[|n] |]; f_equal; apply IH; intros k; apply (Hno (S k)).
Qed.

Lemma sub_absent_literal (t : str) (p : list item) (tpl : list titem)
    (s : str) (count : nat) :
  Lit t ∈ p -> str_in t s = false -> sub p tpl s count = s.
Proof.
  intros Hin Hno. apply sub_scan_no_match. intros k.
  destruct (re_match p (drop k s) 0 [] []) as [r |] eqn:Hm; [| done].
  apply (re_match_literals t) in Hm; [| done].
  apply str_in_drop in Hm. congruence.
Qed.

Lemma sub_absent_literal_then (t : str) (p : list item) (tpl : list titem)
    (s s' : str) (count : nat) :
  Lit t ∈ p -> str_in t s = false -> s' = s -> sub p tpl s' count = s.
Proof. intros Hin Hno ->. by eapply sub_absent_literal. Qed.

(** X7. A text that holds none of the six anchor statements passes through
    the substitutions of [add_logs_to_game_js] unchanged, in
    add_debug_logs.py and in add_debug_logs_simple.py. *)
Theorem game_subs_without_anchors (content : str) :
  Forall (fun t => str_in t content = false) game_anchor_literals ->
  Logs.game_subs content = content /\ Simple.game_subs content = content.
Proof.
  unfold game_anchor_literals. rewrite !Forall_cons.
  intros (H1 & H2 & H3 & H4 & H5 & H6 & _).
  split.
  - unfold Logs.game_subs. cbn zeta.
    eapply (sub_absent_literal_then _ Logs.game_pattern6);
      [by apply (list_elem_of_lookup_2 _ 3%nat) | exact H6 |].
    eapply (sub_absent_literal_then _ Logs.game_pattern5);
      [by apply (list_elem_of_lookup_2 _ 1%nat) | exact H5 |].
    eapply (sub_absent_literal_then _ Logs.game_pattern4);
      [by apply (list_elem_of_lookup_2 _ 3%nat) | exact H4 |].
    eapply (sub_absent_literal_then _ Logs.game_pattern3);
      [by apply (list_elem_of_lookup_2 _ 3%nat) | exact H3 |].
    eapply (sub_absent_literal_then _ Logs.game_pattern2);
      [by apply (list_elem_of_lookup_2 _ 3%nat) | exact H2 |].
    eapply (sub_absent_literal_then _ Logs.game_pattern1);
      [by apply (list_elem_of_lookup_2 _ 1%nat) | exact H1 | reflexivity].
  - unfold Simple.game_subs. cbn zeta.
    eapply (sub_absent_literal_then _ Simple.game_pattern6);
      [by apply (list_elem_of_lookup_2 _ 1%nat) | exact H6 |].
    eapply (sub_absent_literal_then _ Simple.game_pattern5);
      [by apply (list_elem_of_lookup_2 _ 1%nat) | exact H5 |].
    eapply (sub_absent_literal_then _ Simple.game_pattern4);
      [by apply (list_elem_of_lookup_2 _ 5%nat) | exact H4 |].
    eapply (sub_absent_literal_then _ Simple.game_pattern3);
      [by apply (list_elem_of_lookup_2 _ 1%nat) | exact H3 |].
    eapply (sub_absent_literal_then _ Simple.game_pattern2);
      [by apply (list_elem_of_lookup_2 _ 1%nat) | exact H2 |].
    eapply (sub_absent_literal_then _ Simple.game_pattern1);
      [by apply (list_elem_of_lookup_2 _ 1%nat) | exact H1 | reflexivity].
Qed.

Lemma game_subs_without_anchors_witness :
  Logs.game_subs (text ["function f() {"; "  doWork();"; "}"])
  = text ["function f() {"; "  doWork();"; "}"]
  /\ Simple.game_subs (text ["function f() {"; "  doWork();"; "}"])
     = text ["function f() {"; "  doWork();"; "}"].
Proof.
  apply (game_subs_without_anchors (text ["function f() {"; "  doWork();"; "}"])).
  apply (bool_decide_unpack _). by vm_compute.
Defined.

(** X8. When view.js holds neither the marker nor the statement that
    starts the anchor, [add_logs_to_view_js] of add_debug_final.py writes
    back the text it read and reports "[OK]". *)
Theorem view_js_without_anchor (w : IO.world) (raw : str) :
  IO.files w !! Final.view_file_path = Some raw ->
  Final.view_file_path ∉ IO.readonly w ->
  str_in (lit "SLOT CLICKED (view.js):") (IO.universal_newlines raw) = false ->
  str_in (lit "const cardInSlot = slotElement.querySelector('[data-card-id]');")
    (IO.universal_newlines raw) = false ->
  Final.add_logs_to_view_js w =
    (Return tt,
     {| IO.platform_of := IO.platform_of w;
        IO.files :=
          <[Final.view_file_path :=
              IO.write_newlines (IO.platform_of w) (IO.universal_newlines raw)]>
            (IO.files w);
        IO.readonly := IO.readonly w;
        IO.stdout := IO.stdout w ++ [lit "[OK] Updated view.js"];
        IO.written := IO.written w ++ [Final.view_file_path] |}).
Proof.
  intros Hraw Hro Hm Ha. unfold Final.add_logs_to_view_js.
  rewrite (bind_return _ _ _ _ _ (read_present _ _ _ Hraw)). cbn zeta.
  rewrite Hm.
  erewrite (sub_absent_literal _ Final.view_pattern);
    [| by apply (list_elem_of_lookup_2 _ 1%nat) | exact Ha].
  unfold IO.bind, IO.write_text, IO.print.
  by rewrite bool_decide_eq_false_2.
Qed.

Lemma view_js_without_anchor_witness :
  let w := posix_world [(Final.view_file_path, text ["let x = 1;"; ""])] in
  IO.written (Final.add_logs_to_view_js w).2 = [Final.view_file_path].
Proof.
  intros w.
  rewrite (view_js_without_anchor w (text ["let x = 1;"; ""])).
  - reflexivity.
  - vm_compute. reflexivity.
  - apply (bool_decide_unpack _). vm_compute. exact I.
  - vm_compute. reflexivity.
  - vm_compute. reflexivity.
Defined.

Lemma str_in_prefix (x a b : str) : str_in x a = true -> str_in x (a ++ b) = true.
Proof. apply (str_in_app x [] a b). Qed.

Lemma str_in_suffix (x a b : str) : str_in x b = true -> str_in x (a ++ b) = true.
Proof.
  intros H. rewrite <- (app_nil_r b). by apply str_in_app.
Qed.

Lemma str_in_trans (m x s : str) :
  str_in m x = true -> str_in x s = true -> str_in m s = true.
Proof.
  intros Hm (a & b & ->)%str_in_spec. by apply str_in_app.
Qed.

Lemma str_in_self (x : str) : str_in x x = true.
Proof. apply str_in_spec. exists [], []. by rewrite app_nil_r. Qed.

Lemma str_in_expand (x : str) (tpl : list titem) (caps : list (nat * nat)) (s : str) :
  TLit x ∈ tpl -> str_in x (expand tpl caps s) = true.
Proof.
  induction tpl as [|t tpl IH]; intros Hin; [by apply elem_of_nil in Hin |].
  unfold expand. cbn [flat_map]. fold (expand tpl caps s).
  apply elem_of_cons in Hin as [<- | Hin].
  - apply str_in_prefix, str_in_self.
  - by apply str_in_suffix, IH.
Qed.

(** Where the pattern matches somewhere and a replacement is still
    allowed, the result of [re.sub] holds the literal text of the
    template. *)
Lemma sub_scan_has_template (p : list item) (tpl : list titem) (x : str) :
  TLit x ∈ tpl ->
  forall s limit k r,
    limit <> Some 0%nat ->
    re_match p (drop k s) 0 [] [] = Some r ->
    str_in x (sub_scan p tpl limit 0 s) = true.
Proof.
  intros Hx. induction s as [|c s IH]; intros limit k r Hl Hm.
  - rewrite drop_nil in Hm. cbn [sub_scan].
    assert (match limit with Some 0%nat => None | _ => re_match p [] 0 [] [] end
            = Some r) as -> by (destruct limit as [[|n] |]; done).
    destruct r as [len caps]. by apply str_in_prefix, str_in_expand.
  - cbn [sub_scan].
    destruct (re_match p (c :: s) 0 [] []) as [[len caps] |] eqn:E.
    + assert (match limit with Some 0%nat => None | _ => Some (len, caps) end
              = Some (len, caps)) as -> by (destruct limit as [[|n] |]; done).
      by apply str_in_prefix, str_in_expand.
    + assert (match limit with Some 0%nat => None | _ => None end
              = @None (nat * list (nat * nat))) as ->
        by (destruct limit as [[|n] |]; done).
      destruct k as [|k]; [cbn [drop] in Hm; congruence |].
      apply (str_in_suffix x [c]). by eapply IH.
Qed.

(** [re.sub] puts into its result only characters of the text and of the
    template. *)
Lemma sub_scan_forall (P : N -> Prop) (p : list item) (tpl : list titem) :
  Forall P (tpl_text tpl) ->
  forall s limit skip,
    Forall P s -> Forall P (sub_scan p tpl limit skip s).
Proof.
  intros Ht.
  assert (forall s caps, Forall P s -> Forall P (expand tpl caps s)) as Hexp.
  { intros s caps Hs. clear -Ht Hs. induction tpl as [|t tpl IH]; [done |].
    unfold expand, tpl_text in *. cbn [flat_map] in *.
    apply Forall_app in Ht as [Ht1 Ht2]. apply Forall_app. split; [| by apply IH].
    destruct t as [x | n]; [done |]. unfold group. destruct n as [|n]; [done |].
    destruct (caps !! n) as [[b e] |]; [| done].
    by apply Forall_take, Forall_drop. }
  induction s as [|c s IH]; intros limit skip Hs.
  - destruct skip; cbn [sub_scan]; [| done].
    destruct (match limit with Some 0%nat => None | _ => re_match p [] 0 [] [] end)
      as [[len caps] |]; [| done].
    rewrite app_nil_r. by apply Hexp.
  - inversion_clear Hs as [|? ? Hc Hs'].
    destruct skip as [|k]; cbn [sub_scan]; [| by apply IH].
    destruct (match limit with Some 0%nat => None | _ => re_match p (c :: s) 0 [] [] end)
      as [[len caps] |].
    + apply Forall_app. split; [apply Hexp; by constructor |].
      destruct len; [constructor; [done |] |]; by apply IH.
    + constructor; [done | by apply IH].
Qed.

Lemma limit_of_nonzero (count : nat) : limit_of count <> Some 0%nat.
Proof. by destruct count. Qed.

(** A function of the shape [guarded_sub] whose template holds the marker
    skips on its second run when the first run found a match. *)
Lemma guarded_sub_rerun (path : string) (m skip ok : str) (p : list item)
    (tpl : list titem) (count : nat) (x : str) (w w1 : IO.world) (raw : str)
    (k : nat) r :
  TLit x ∈ tpl ->
  str_in m x = true ->
  Forall (fun c => c <> cr) (tpl_text tpl) ->
  IO.files w !! path = Some raw ->
  re_match p (drop k (IO.universal_newlines raw)) 0 [] [] = Some r ->
  guarded_sub path m skip ok p tpl count w = (Return tt, w1) ->
  guarded_sub path m skip ok p tpl count w1 = IO.print skip w1.
Proof.
  intros Hx Hmx Hcr Hraw Hmatch Hrun. unfold guarded_sub in Hrun |- *.
  rewrite (bind_return _ _ _ _ _ (read_present _ _ _ Hraw)) in Hrun.
  destruct (str_in m (IO.universal_newlines raw)) eqn:Hm.
  - injection Hrun as <-.
    rewrite (bind_return _ _ _ _ _ (read_present _ (IO.print skip w).2 _ Hraw)).
    by rewrite Hm.
  - unfold IO.bind, IO.write_text in Hrun.
    case_bool_decide; [done |]. injection Hrun as <-.
    erewrite bind_return
      by (apply read_present; cbn [IO.files IO.print snd]; apply lookup_insert_eq).
    cbn [IO.platform_of IO.print snd].
    rewrite newline_roundtrip.
    + assert (str_in m (sub p tpl (IO.universal_newlines raw) count) = true)
        as ->; [| done].
      apply (str_in_trans _ x); [done |].
      eapply sub_scan_has_template; [done | apply limit_of_nonzero | done].
    + intros Hin.
      assert (Forall (fun c => c <> cr) (sub p tpl (IO.universal_newlines raw) count))
        as Hall.
      { apply sub_scan_forall; [done |]. apply Forall_forall. intros c Hc ->.
        by apply (universal_newlines_no_cr raw). }
      rewrite Forall_forall in Hall. by apply (Hall _ Hin).
Qed.

(** X9. In add_debug_final.py, when a run of [add_logs_to_view_js]
    returns and the anchor pattern matches somewhere in the text it read,
    the log block, which holds the marker, is in the file afterwards: a
    second run only prints the skip message and writes nothing. *)
Theorem view_js_rerun_skips (w w1 : IO.world) (raw : str) (k : nat)
    (r : nat * list (nat * nat)) :
  IO.files w !! Final.view_file_path = Some raw ->
  re_match Final.view_pattern (drop k (IO.universal_newlines raw)) 0 [] [] = Some r ->
  Final.add_logs_to_view_js w = (Return tt, w1) ->
  Final.add_logs_to_view_js w1
  = IO.print (lit "[SKIP] view.js already has debug logs") w1.
Proof.
  intros Hraw Hmatch Hrun.
  eapply (guarded_sub_rerun Final.view_file_path (lit "SLOT CLICKED (view.js):")
            (lit "[SKIP] view.js already has debug logs")
            (lit "[OK] Updated view.js")
            Final.view_pattern Final.view_replacement 1 _ w w1 raw k r);
    [by apply (list_elem_of_lookup_2 _ 1%nat) | by vm_compute | | done | done | exact Hrun].
  apply (bool_decide_unpack _). by vm_compute.
Qed.

Lemma view_js_rerun_skips_witness :
  let raw :=
    text ["const cardInSlot = slotElement.querySelector('[data-card-id]');";
          "const cardId = cardInSlot ? (cardInSlot.dataset.runtimeId || cardInSlot.dataset.cardId) : null;"] in
  let w := posix_world [(Final.view_file_path, raw)] in
  let w1 := (Final.add_logs_to_view_js w).2 in
  Final.add_logs_to_view_js w1
  = IO.print (lit "[SKIP] view.js already has debug logs") w1.
Proof.
  intros raw w w1.
  apply (view_js_rerun_skips w w1 raw 0 (159%nat, [(0%nat, 159%nat)])).
  - vm_compute. reflexivity.
  - vm_compute. reflexivity.
  - vm_compute. reflexivity.
Defined.

(** X10. In add_debug_logs.py, when a run of
    [add_logs_to_board_event_handler_js] returns and the text it read held
    the old log statement, the statement that replaces it, which holds the
    marker, is in the file afterwards: a second run only prints the
    "already has debug logs" line and writes nothing. *)
Theorem board_js_rerun_skips (w w1 : IO.world) (raw : str) :
  IO.files w !! Logs.board_file_path = Some raw ->
  str_in (lit "console.log('🖱️ BoardEventHandler: disabled, ignoring');")
    (IO.universal_newlines raw) = true ->
  Logs.add_logs_to_board_event_handler_js w = (Return tt, w1) ->
  Logs.add_logs_to_board_event_handler_js w1
  = IO.print (lit "ℹ️  " ++ lit Logs.board_file_path ++ lit " already has debug logs") w1.
Proof.
  intros Hraw (a & b & Hab)%str_in_spec Hrun.
  eapply (guarded_sub_rerun Logs.board_file_path (lit "⛔ BoardEventHandler: disabled")
            (lit "ℹ️  " ++ lit Logs.board_file_path ++ lit " already has debug logs")
            (lit "✅ Updated " ++ lit Logs.board_file_path)
            Logs.board_pattern Logs.board_replacement 0 _ w w1 raw (length a)
            ((0 + length (lit "console.log('🖱️ BoardEventHandler: disabled, ignoring');"))%nat,
             []));
    [by apply (list_elem_of_lookup_2 _ 0%nat) | by vm_compute | | done | | exact Hrun].
  - apply (bool_decide_unpack _). by vm_compute.
  - rewrite Hab, drop_app_length. unfold Logs.board_pattern. cbn [re_match].
    assert (startswith (lit "console.log('🖱️ BoardEventHandler: disabled, ignoring');")
              (lit "console.log('🖱️ BoardEventHandler: disabled, ignoring');" ++ b)
            = true) as -> by (apply startswith_spec; eauto).
    done.
Qed.

Lemma board_js_rerun_skips_witness :
  let raw :=
    text ["if (!this.isEnabled) {";
          "    console.log('🖱️ BoardEventHandler: disabled, ignoring');"] in
  let w := posix_world [(Logs.board_file_path, raw)] in
  let w1 := (Logs.add_logs_to_board_event_handler_js w).2 in
  Logs.add_logs_to_board_event_handler_js w1
  = IO.print (lit "ℹ️  " ++ lit Logs.board_file_path ++ lit " already has debug logs") w1.
Proof.
  intros raw w w1.
  apply (board_js_rerun_skips w w1 raw).
  - vm_compute. reflexivity.
  - vm_compute. reflexivity.
  - vm_compute. reflexivity.
Defined.

End Substitutions.

(** ** Running add_debug_final.py on interaction.js twice *)
Section InteractionRerun.
Import Py Final.

(** What an iteration of the interaction.js loop puts after the line. *)
Lemma interaction_step_cases (pre rest : list str) (line : str)
    (acc after : list str) :
  interaction_step (pre ++ line :: rest) (Z.of_nat (length pre)) line acc
  = Return (acc ++ line :: after) ->
  (str_in (lit "const object = this._findInteractiveParent(firstHit.object);") line
   = true
   /\ after = mouse_down_log)
  \/ (str_in (lit "const object = this._findInteractiveParent(firstHit.object);") line
      = false
      /\ (after = [lit "                    console.log('DRAG BLOCKED: Wrong turn', { owner: object.userData.owner, currentPlayer: this.gameState.turnPlayer });"]
          \/ after = [])).
Proof.
  destruct (getitem_prev pre rest line) as [prev Hprev].
  rewrite (interaction_step_chain _ _ _ _ _ Hprev).
  match goal with |- context [if ?b then _ else _] => destruct b end.
  - intros [= H%app_inv_head]. injection H as <-. left. split; reflexivity.
  - match goal with |- context [if ?b then _ else _] => destruct b end.
    + intros [= H%app_inv_head]. injection H as <-.
      right. split; [reflexivity | left; reflexivity].
    + intros [= H%app_inv_head]. injection H as <-.
      right. split; [reflexivity | right; reflexivity].
Qed.

(** [add_logs_to_interaction_js] on a world whose interaction.js can be
    read. *)
Lemma interaction_js_run (w : IO.world) (raw : str) :
  IO.files w !! interaction_file_path = Some raw ->
  add_logs_to_interaction_js w =
    let content := IO.universal_newlines raw in
    if str_in (lit "THREE.JS MOUSE DOWN:") content
    then IO.print (lit "[SKIP] interaction.js already has debug logs") w
    else
      match interaction_loop (split nl content) (split nl content) 0 [] with
      | Return new_lines =>
        IO.bind (IO.write_text interaction_file_path (join [nl] new_lines))
          (fun _ => IO.print (lit "[OK] Updated interaction.js")) w
      | Raise e => (Raise e, w)
      end.
Proof.
  intros Hraw. unfold add_logs_to_interaction_js.
  rewrite (bind_return _ _ _ _ _ (read_present _ _ _ Hraw)). cbn zeta.
  destruct (str_in _ _); [done |].
  unfold IO.bind at 1, IO.lift. by destruct (interaction_loop _ _ _ _).
Qed.

(** The result of the loop holds no carriage return when the lines hold
    none, and it holds the line with the marker when some line holds the
    anchor of the first rule. *)
Lemma interaction_loop_result (lines : list str) (j : nat) (line : str) :
  Forall (Forall (fun c => c <> cr)) lines ->
  lines !! j = Some line ->
  str_in (lit "const object = this._findInteractiveParent(firstHit.object);") line
  = true ->
  exists out,
    interaction_loop lines lines 0 [] = Return out
    /\ Forall (Forall (fun c => c <> cr)) out
    /\ lit "            console.log('THREE.JS MOUSE DOWN:', {" ∈ out.
Proof.
  intros Hcr Hj Ha.
  destruct (interaction_loop_rule
              (fun pre acc =>
                 Forall (Forall (fun c => c <> cr)) acc
                 /\ ((j < length pre)%nat ->
                     lit "            console.log('THREE.JS MOUSE DOWN:', {" ∈ acc))
              lines) with (rest := lines) (pre := @nil str) (acc := @nil str)
    as (out & Hout & Hall & Hin); [| done | | ].
  - intros pre line0 rest acc after Hl [IH1 IH2] Hstep.
    rewrite Hl in Hstep. pose proof (interaction_step_cases _ _ _ _ _ Hstep) as Hc.
    assert (Forall (fun c => c <> cr) line0) as Hline.
    { rewrite Hl in Hcr. apply Forall_app in Hcr as [_ Hcr]. by inversion Hcr. }
    split.
    + apply Forall_app. split; [done |]. constructor; [done |].
      destruct Hc as [[_ ->] | [_ [-> | ->]]]; [| | done];
        apply (bool_decide_unpack _); by vm_compute.
    + rewrite length_app. cbn [length]. intros Hlt.
      rewrite elem_of_app.
      destruct (decide (j < length pre)%nat) as [Hlt' | Hge]; [left; by apply IH2 |].
      right. assert (j = length pre) as -> by lia.
      rewrite Hl, list_lookup_middle in Hj by done. injection Hj as ->.
      destruct Hc as [[_ ->] | [Hno _]]; [| congruence].
      rewrite elem_of_cons. right. by apply (list_elem_of_lookup_2 _ 1%nat).
  - split; [constructor | cbn [length]; lia].
  - exists out. split; [done |]. split; [done |].
    apply Hin. by apply lookup_lt_Some in Hj.
Qed.

(** X12. In add_debug_final.py, when a run of
    [add_logs_to_interaction_js] returns and some line of interaction.js
    held the anchor of the first rule, the mouse-down block, which holds
    the marker, is in the file afterwards: a second run only prints the
    skip message and writes nothing. *)
Theorem interaction_js_rerun_skips (w w1 : IO.world) (raw : str) (j : nat)
    (line : str) :
  IO.files w !! interaction_file_path = Some raw ->
  split nl (IO.universal_newlines raw) !! j = Some line ->
  str_in (lit "const object = this._findInteractiveParent(firstHit.object);") line
  = true ->
  add_logs_to_interaction_js w = (Return tt, w1) ->
  add_logs_to_interaction_js w1
  = IO.print (lit "[SKIP] interaction.js already has debug logs") w1.
Proof.
  intros Hraw Hj Ha Hrun.
  rewrite (interaction_js_run _ _ Hraw) in Hrun. cbn zeta in Hrun.
  destruct (str_in (lit "THREE.JS MOUSE DOWN:") (IO.universal_newlines raw)) eqn:Hm.
  - injection Hrun as <-.
    rewrite (interaction_js_run _ raw) by done. cbn zeta. by rewrite Hm.
  - destruct (interaction_loop_result (split nl (IO.universal_newlines raw)) j line)
      as (out & Hout & Hcr & Hin); [| done | done |].
    { apply split_forall, Forall_forall. intros c Hc ->.
      by apply (universal_newlines_no_cr raw). }
    rewrite Hout in Hrun. unfold IO.bind, IO.write_text in Hrun.
    case_bool_decide; [done |]. injection Hrun as <-.
    erewrite interaction_js_run
      by (cbn [IO.files IO.print snd]; apply lookup_insert_eq).
    cbn zeta. cbn [IO.platform_of IO.print snd].
    rewrite newline_roundtrip.
    + assert (str_in (lit "THREE.JS MOUSE DOWN:") (join [nl] out) = true) as ->;
        [| done].
      apply (str_in_join _ _ (lit "            console.log('THREE.JS MOUSE DOWN:', {"));
        [done | by vm_compute].
    + intros Hc.
      assert (Forall (fun c => c <> cr) (join [nl] out)) as Hall
        by (apply join_forall; [by repeat constructor | done]).
      rewrite Forall_forall in Hall. by apply (Hall _ Hc).
Qed.

Lemma interaction_js_rerun_skips_witness :
  let raw := text ["  const object = this._findInteractiveParent(firstHit.object);";
                   "  if (!object) return;"] in
  let w := posix_world [(interaction_file_path, raw)] in
  let w1 := (add_logs_to_interaction_js w).2 in
  add_logs_to_interaction_js w1
  = IO.print (lit "[SKIP] interaction.js already has debug logs") w1.
Proof.
  intros raw w w1.
  apply (interaction_js_rerun_skips w w1 raw 0
           (lit "  const object = this._findInteractiveParent(firstHit.object);")).
  - vm_compute. reflexivity.
  - vm_compute. reflexivity.
  - vm_compute. reflexivity.
  - vm_compute. reflexivity.
Defined.

End InteractionRerun.

(** ** When the guard of game.js does not stop a second run *)
Section GameRerun.
Import Py Final.

Lemma startswith_cut (m a b : str) (c : N) :
  c ∉ m -> startswith m (a ++ c :: b) = true -> startswith m a = true.
Proof.
  revert a. induction m as [|x m IH]; intros a Hc; [done |].
  apply not_elem_of_cons in Hc as [Hx Hm].
  destruct a as [|y a]; cbn [app startswith].
  - intros [Hxc _]%andb_true_iff. apply N.eqb_eq in Hxc. congruence.
  - intros [-> H]%andb_true_iff. cbn [andb]. by apply IH.
Qed.

Lemma str_in_cons (m a : str) (d : N) :
  str_in m (d :: a) = startswith m (d :: a) || str_in m a.
Proof. reflexivity. Qed.

(** A text without the separator that occurs in [a + sep + b] occurs in
    [a] or in [b]. *)
Lemma str_in_cut (m a b : str) (c : N) :
  c ∉ m ->
  str_in m (a ++ c :: b) = true ->
  str_in m a = true \/ str_in m b = true.
Proof.
  intros Hc. induction a as [|d a IH]; cbn [app]; rewrite str_in_cons.
  - intros [H | H]%orb_true_iff; [| by right].
    left. destruct m as [|x m]; [done |].
    cbn [startswith] in H. apply andb_true_iff in H as [H%N.eqb_eq _].
    apply not_elem_of_cons in Hc as [Hx _]. congruence.
  - intros [H | H]%orb_true_iff.
    + left. change (d :: a ++ c :: b) with ((d :: a) ++ c :: b) in H.
      apply startswith_cut in H; [| done]. by rewrite str_in_cons, H.
    + destruct (IH H) as [H' | H']; [left | by right].
      rewrite str_in_cons, H'. apply orb_true_r.
Qed.

Lemma str_in_join_inv (m : str) (ls : list str) :
  nl ∉ m ->
  str_in m (join [nl] ls) = true ->
  ls = [] \/ exists l, l ∈ ls /\ str_in m l = true.
Proof.
  intros Hm. induction ls as [|l ls IH]; [by left |]. intros H. right.
  destruct ls as [|l' ls].
  - exists l. split; [by apply elem_of_cons; left | done].
  - rewrite join_cons in H by done. cbn [app] in H.
    apply (str_in_cut m l _ nl Hm) in H as [H | H].
    + exists l. split; [by apply elem_of_cons; left | done].
    + destruct (IH H) as [? | (x & Hx & Hmx)]; [done |].
      exists x. split; [by apply elem_of_cons; right | done].
Qed.

Ltac split_if :=
  match goal with
  | |- context [if ?b then _ else _] => destruct b
  end.

(** An iteration in which the first test fails adds no line that holds
    the marker. *)
Lemma game_step_no_marker (lines : list str) (i : Z) (line prev : str)
    (acc out : list str) :
  getitem lines (i - 1) = Return prev ->
  str_in anchor_dataset line && str_in (lit "async _handleCardClick") prev = false ->
  Forall (fun l => str_in marker l = false) acc ->
  str_in marker line = false ->
  game_step lines i line acc = Return out ->
  Forall (fun l => str_in marker l = false) out.
Proof.
  intros Hprev Hno Hacc Hline. rewrite (game_step_chain _ _ _ _ _ Hprev), Hno.
  assert (forall ins,
            Forall (fun l => str_in marker l = false) ins ->
            Forall (fun l => str_in marker l = false) (acc ++ ins)) as Happ
    by (intros ins Hins; by apply Forall_app).
  split_if; [intros [= <-]; apply Happ; constructor; [done |];
             apply (bool_decide_unpack _); by vm_compute |].
  split_if; [intros [= <-]; apply Happ; constructor; [done |];
             apply (bool_decide_unpack _); by vm_compute |].
  split_if; [intros [= <-]; apply Happ; constructor; [done |];
             apply (bool_decide_unpack _); by vm_compute |].
  split_if; [intros [= <-]; apply Happ; constructor; [done |];
             apply (bool_decide_unpack _); by vm_compute |].
  split_if; [| intros [= <-]; apply Happ; by repeat constructor].
  destruct (getitem _ (_ + 1)); cbn [res_bind]; [| done].
  split_if; intros [= <-]; apply Happ; [| by repeat constructor].
  constructor; [by vm_compute |]. constructor; [by vm_compute |].
  by repeat constructor.
Qed.

(** X13. The marker gets into game.js only with the click log. When a
    run of [add_logs_to_game_js] of add_debug_final.py writes the file and
    no line passed the first test of the chain, the text of the file has
    no marker afterwards, whatever else was inserted: the guard will not
    stop the next run. *)
Theorem game_js_marker_absent_after_run (w w1 : IO.world) (raw : str) :
  IO.files w !! game_file_path = Some raw ->
  str_in marker (IO.universal_newlines raw) = false ->
  (forall (j : nat) line prev,
     split nl (IO.universal_newlines raw) !! j = Some line ->
     index (split nl (IO.universal_newlines raw)) (Z.of_nat j - 1) = Some prev ->
     str_in anchor_dataset line && str_in (lit "async _handleCardClick") prev
     = false) ->
  add_logs_to_game_js w = (Return tt, w1) ->
  exists raw1,
    IO.files w1 !! game_file_path = Some raw1
    /\ str_in marker (IO.universal_newlines raw1) = false.
Proof.
  intros Hraw Hm Hno Hrun.
  rewrite (game_js_run _ _ Hraw) in Hrun. cbn zeta in Hrun. rewrite Hm in Hrun.
  destruct (game_loop _ _ 0 []) as [out | e] eqn:Hloop; [| done].
  unfold IO.bind, IO.write_text in Hrun.
  case_bool_decide; [done |]. injection Hrun as <-.
  eexists. split; [cbn [IO.files IO.print snd]; apply lookup_insert_eq |].
  assert (Forall (fun c => c <> cr) (join [nl] out)) as Hcr.
  { apply join_forall; [by repeat constructor |].
    eapply game_loop_no_cr; [| exact Hloop].
    apply split_forall, Forall_forall. intros c Hc' ->.
    by apply (universal_newlines_no_cr raw). }
  rewrite newline_roundtrip
    by (intros Hin; rewrite Forall_forall in Hcr; by apply (Hcr _ Hin)).
  assert (Forall (fun l => str_in marker l = false) out) as Hout.
  { apply (game_loop_rule
             (fun _ acc => Forall (fun l => str_in marker l = false) acc)
             (split nl (IO.universal_newlines raw)))
      with (rest := split nl (IO.universal_newlines raw)) (pre := []) (acc := []);
      [| done | done | done].
    intros pre line rest acc out0 Hl IH Hstep.
    destruct (getitem_prev pre rest line) as [prev Hprev]. rewrite <- Hl in Hprev.
    eapply game_step_no_marker; [exact Hprev | | exact IH | | exact Hstep].
    - apply (Hno (length pre)); [by rewrite Hl, list_lookup_middle |].
      unfold getitem in Hprev. by destruct (index _ _) as [x |]; [injection Hprev as -> |].
    - destruct (str_in marker line) eqn:E; [| done].
      rewrite <- Hm, <- (join_split (IO.universal_newlines raw)). symmetry.
      apply (str_in_join _ _ line); [| done].
      rewrite Hl. rewrite elem_of_app, elem_of_cons. by right; left. }
  destruct (str_in marker (join [nl] out)) eqn:E; [| done].
  assert (nl ∉ marker) as Hnl by (apply (bool_decide_unpack _); by vm_compute).
  pose proof (str_in_join_inv _ _ Hnl E) as [-> | (l & Hl & Hml)].
  - by vm_compute in E.
  - rewrite Forall_forall in Hout. by rewrite (Hout _ Hl) in Hml.
Qed.

Lemma game_js_marker_absent_after_run_witness :
  let raw := lit "if (this.state.turnPlayer === 'cpu' && owner === 'player') {" in
  let w := posix_world [(game_file_path, raw)] in
  exists raw1,
    IO.files (add_logs_to_game_js w).2 !! game_file_path = Some raw1
    /\ str_in marker (IO.universal_newlines raw1) = false.
Proof.
  intros raw w.
  apply (game_js_marker_absent_after_run w (add_logs_to_game_js w).2 raw).
  - vm_compute. reflexivity.
  - vm_compute. reflexivity.
  - intros [|j] line prev; [| by vm_compute].
    intros [= <-]. vm_compute. reflexivity.
  - vm_compute. reflexivity.
Defined.

End GameRerun.

(** * The claims on writing, matching and insertion, for every function *)

(** ** Writing *)
Section Writing.
Import Py.

Lemma write_then_print (path : string) (content ok : str) (w : IO.world) :
  path ∉ IO.readonly w ->
  IO.bind (IO.write_text path content) (fun _ => IO.print ok) w =
    (Return tt,
     {| IO.platform_of := IO.platform_of w;
        IO.files := <[path := IO.write_newlines (IO.platform_of w) content]> (IO.files w);
        IO.readonly := IO.readonly w;
        IO.stdout := IO.stdout w ++ [ok];
        IO.written := IO.written w ++ [path] |}).
Proof.
  intros Hro. unfold IO.bind, IO.write_text, IO.print.
  by rewrite bool_decide_eq_false_2.
Qed.

(** C3, as the code has it. Every function of the three scripts that
    rewrites a target file writes it whenever it gets as far as its new
    text: the file can be read and written, no marker is found where one
    is tested and computing the new text raises nothing. It then opens the
    file for writing, writes the new text with the line endings of the
    platform and prints its success line, whether the new text differs
    from the text read or not: no function looks whether it inserted
    anything. *)
Theorem file_written_whatever_was_inserted (f : IO.M unit) (path : string)
    (guard : option str) (new : str -> res str) (ok : str)
    (w : IO.world) (raw new_text : str) :
  rewriter f path guard new ok ->
  IO.files w !! path = Some raw ->
  (forall m, guard = Some m -> str_in m (IO.universal_newlines raw) = false) ->
  new (IO.universal_newlines raw) = Return new_text ->
  path ∉ IO.readonly w ->
  f w =
    (Return tt,
     {| IO.platform_of := IO.platform_of w;
        IO.files := <[path := IO.write_newlines (IO.platform_of w) new_text]> (IO.files w);
        IO.readonly := IO.readonly w;
        IO.stdout := IO.stdout w ++ [ok];
        IO.written := IO.written w ++ [path] |}).
Proof.
  intros Hrw Hraw Hguard Hnew Hro. destruct Hrw.
  - rewrite (game_js_run _ _ Hraw). cbn zeta. rewrite (Hguard _ eq_refl).
    destruct (Final.game_loop _ _ 0 []) as [out | e]; [| done].
    injection Hnew as <-. by apply write_then_print.
  - unfold Final.add_logs_to_view_js.
    rewrite (bind_return _ _ _ _ _ (read_present _ _ _ Hraw)). cbn zeta.
    rewrite (Hguard _ eq_refl). injection Hnew as <-. by apply write_then_print.
  - rewrite (interaction_js_run _ _ Hraw). cbn zeta. rewrite (Hguard _ eq_refl).
    destruct (Final.interaction_loop _ _ 0 []) as [out | e]; [| done].
    injection Hnew as <-. by apply write_then_print.
  - unfold Logs.add_logs_to_game_js.
    rewrite (bind_return _ _ _ _ _ (read_present _ _ _ Hraw)). cbn zeta.
    injection Hnew as <-. by apply write_then_print.
  - unfold Logs.add_logs_to_view_js.
    rewrite (bind_return _ _ _ _ _ (read_present _ _ _ Hraw)). cbn zeta.
    injection Hnew as <-. by apply write_then_print.
  - unfold Logs.add_logs_to_interaction_js.
    rewrite (bind_return _ _ _ _ _ (read_present _ _ _ Hraw)). cbn zeta.
    injection Hnew as <-. by apply write_then_print.
  - unfold Logs.add_logs_to_board_event_handler_js.
    rewrite (bind_return _ _ _ _ _ (read_present _ _ _ Hraw)). cbn zeta.
    rewrite (Hguard _ eq_refl). injection Hnew as <-. by apply write_then_print.
  - unfold Simple.add_logs_to_game_js.
    rewrite (bind_return _ _ _ _ _ (read_present _ _ _ Hraw)). cbn zeta.
    injection Hnew as <-. by apply write_then_print.
  - unfold Simple.add_logs_to_view_js.
    rewrite (bind_return _ _ _ _ _ (read_present _ _ _ Hraw)). cbn zeta.
    injection Hnew as <-. by apply write_then_print.
  - unfold Simple.add_logs_to_interaction_js.
    rewrite (bind_return _ _ _ _ _ (read_present _ _ _ Hraw)). cbn zeta.
    injection Hnew as <-. by apply write_then_print.
Qed.

Lemma file_written_whatever_was_inserted_witness :
  let raw := text ["let x = 1;"; ""] in
  let w := posix_world [(Final.game_file_path, raw)] in
  IO.files (Final.add_logs_to_game_js w).2 !! Final.game_file_path = Some raw
  /\ IO.written (Final.add_logs_to_game_js w).2 = [Final.game_file_path].
Proof.
  intros raw w.
  rewrite (file_written_whatever_was_inserted _ _ _ _ _ w raw raw
             rewriter_final_game).
  - split; vm_compute; reflexivity.
  - vm_compute. reflexivity.
  - intros m [= <-]. vm_compute. reflexivity.
  - vm_compute. reflexivity.
  - apply (bool_decide_unpack _). vm_compute. exact I.
Defined.

End Writing.

(** ** Matching a line *)
Section Matching.
Import Py Final.

Lemma exact_anchor_stripped (a : str) :
  a ∈ exact_line_anchors -> strip a = a.
Proof.
  intros Ha.
  assert (Forall (fun a => strip a = a) exact_line_anchors) as H
    by (apply (bool_decide_unpack _); vm_compute; exact I).
  rewrite Forall_forall in H. by apply H.
Qed.

Lemma strip_test_padded (a line : str) :
  a ∈ exact_line_anchors ->
  str_eqb (strip line) a = true <-> padded a line.
Proof. intros Ha. by apply strip_eq_iff, exact_anchor_stripped. Qed.

(** A line that strips to one of these anchors does not hold the text of
    the first test of the chain: that text has a comma, the anchors have
    none. *)
Lemma exact_anchor_not_dataset (a line : str) :
  a ∈ exact_line_anchors ->
  str_eqb (strip line) a = true ->
  str_in anchor_dataset line = false.
Proof.
  intros Ha Hs%str_eqb_eq. apply (str_in_strip_absent _ _ 44%N).
  - apply (bool_decide_unpack _). vm_compute. exact I.
  - reflexivity.
  - rewrite Hs.
    assert (Forall (fun a => 44%N ∉ a) exact_line_anchors) as H
      by (apply (bool_decide_unpack _); vm_compute; exact I).
    rewrite Forall_forall in H. by apply H.
Qed.

Ltac top_if H :=
  match type of H with
  | (if ?b then _ else _) = _ => let E := fresh "E" in destruct b eqn:E
  end.

(** Two different blocks after the same [new_lines] are different
    results. *)
Lemma block_length_differs (acc x y : list str) :
  length x <> length y -> Return (acc ++ x) <> Return (acc ++ y).
Proof.
  intros Hne H. injection H as H. apply app_inv_head in H. by rewrite H in Hne.
Qed.

Lemma block_log_differs (acc : list str) (line a b : str) :
  a <> b -> Return (acc ++ [line; a]) <> Return (acc ++ [line; b]).
Proof.
  intros Hne H. injection H as H. apply app_inv_head in H.
  apply (f_equal (fun l : list str => l !! 1%nat)) in H. cbn in H.
  injection H as H. exact (Hne H).
Qed.

Ltac other_block H :=
  exfalso; revert H;
  first
    [ apply block_length_differs; vm_compute; discriminate
    | apply block_log_differs; apply (bool_decide_unpack _); vm_compute; exact I ].

Ltac closed_eqb :=
  repeat match goal with
         | |- context [str_eqb ?a ?b] =>
           let v := eval vm_compute in (str_eqb a b) in
           assert (str_eqb a b = v) as -> by (vm_compute; reflexivity)
         end.

(** C4, as the code has it. In the loop body of [add_logs_to_game_js]
    (add_debug_final.py) the five rules that compare [line.strip()] with
    their anchor are case-sensitive but not whitespace-exact. Each rule
    fires, that is the iteration returns [new_lines] with the line and the
    rule's log line, exactly when the line is the anchor text with any
    whitespace, possibly none, before and after it and the rule's test on
    the neighbouring line holds. *)
Theorem exact_line_rules_match_padded_anchor (lines : list str) (i : Z)
    (line prev : str) (acc : list str) :
  getitem lines (i - 1) = Return prev ->
  (game_step lines i line acc = Return (acc ++ [line; log_processing])
   <-> padded anchor_processing line /\ 0 < i
       /\ str_in (lit "処理中の場合はクリックを無視") prev = true)
  /\ (game_step lines i line acc = Return (acc ++ [line; log_player_turn])
      <-> padded anchor_player_turn line /\ 0 < i
          /\ str_in (lit "ターンプレイヤーと所有者のチェック") prev = true)
  /\ (game_step lines i line acc = Return (acc ++ [line; log_info])
      <-> padded anchor_info line
          /\ str_in (lit "CPUのカードは情報表示のみ許可") prev = true)
  /\ (game_step lines i line acc = Return (acc ++ [line; log_cpu_turn])
      <-> padded anchor_cpu_turn line)
  /\ (game_step lines i line acc = Return (acc ++ [lit ""; log_allowed; line])
      <-> padded anchor_phases line
          /\ exists next,
               getitem lines (i + 1) = Return next
               /\ str_in (lit "switch") next = true).
Proof.
  intros Hprev.
  assert (anchor_processing ∈ exact_line_anchors) as In2
    by (apply (list_elem_of_lookup_2 _ 0%nat); reflexivity).
  assert (anchor_player_turn ∈ exact_line_anchors) as In3
    by (apply (list_elem_of_lookup_2 _ 1%nat); reflexivity).
  assert (anchor_info ∈ exact_line_anchors) as In4
    by (apply (list_elem_of_lookup_2 _ 2%nat); reflexivity).
  assert (anchor_cpu_turn ∈ exact_line_anchors) as In5
    by (apply (list_elem_of_lookup_2 _ 3%nat); reflexivity).
  assert (anchor_phases ∈ exact_line_anchors) as In6
    by (apply (list_elem_of_lookup_2 _ 4%nat); reflexivity).
  rewrite (game_step_chain _ _ _ _ _ Hprev).
  split; [| split; [| split; [| split]]].
  - split.
    + intros H. top_if H; [other_block H |].
      top_if H.
      { apply andb_true_iff in E0 as [E1 E3].
        apply andb_true_iff in E1 as [E1 E2].
        split; [exact (proj1 (strip_test_padded _ _ In2) E1) |].
        split; [exact (proj1 (Z.ltb_lt _ _) E2) | exact E3]. }
      top_if H; [other_block H |]. top_if H; [other_block H |].
      top_if H; [other_block H |]. top_if H; [| other_block H].
      destruct (getitem lines (i + 1)); cbn [res_bind] in H; [| discriminate H].
      top_if H; other_block H.
    + intros (Hp & Hi & Hc).
      apply (proj2 (strip_test_padded _ _ In2)) in Hp.
      apply (proj2 (Z.ltb_lt _ _)) in Hi.
      rewrite (exact_anchor_not_dataset _ _ In2 Hp), Hp, Hi, Hc. reflexivity.
  - split.
    + intros H. top_if H; [other_block H |]. top_if H; [other_block H |].
      top_if H.
      { apply andb_true_iff in E1 as [E2 E4].
        apply andb_true_iff in E2 as [E2 E3].
        split; [exact (proj1 (strip_test_padded _ _ In3) E2) |].
        split; [exact (proj1 (Z.ltb_lt _ _) E3) | exact E4]. }
      top_if H; [other_block H |].
      top_if H; [other_block H |]. top_if H; [| other_block H].
      destruct (getitem lines (i + 1)); cbn [res_bind] in H; [| discriminate H].
      top_if H; other_block H.
    + intros (Hp & Hi & Hc).
      apply (proj2 (strip_test_padded _ _ In3)) in Hp.
      apply (proj2 (Z.ltb_lt _ _)) in Hi.
      rewrite (exact_anchor_not_dataset _ _ In3 Hp), Hi, Hc.
      apply str_eqb_eq in Hp. rewrite Hp. closed_eqb. reflexivity.
  - split.
    + intros H. top_if H; [other_block H |]. top_if H; [other_block H |].
      top_if H; [other_block H |].
      top_if H.
      { apply andb_true_iff in E2 as [E3 E4].
        split; [exact (proj1 (strip_test_padded _ _ In4) E3) | exact E4]. }
      top_if H; [other_block H |]. top_if H; [| other_block H].
      destruct (getitem lines (i + 1)); cbn [res_bind] in H; [| discriminate H].
      top_if H; other_block H.
    + intros (Hp & Hc).
      apply (proj2 (strip_test_padded _ _ In4)) in Hp.
      rewrite (exact_anchor_not_dataset _ _ In4 Hp), Hc.
      apply str_eqb_eq in Hp. rewrite Hp. closed_eqb. reflexivity.
  - split.
    + intros H. top_if H; [other_block H |]. top_if H; [other_block H |].
      top_if H; [other_block H |]. top_if H; [other_block H |].
      top_if H; [exact (proj1 (strip_test_padded _ _ In5) E3) |].
      top_if H; [| other_block H].
      destruct (getitem lines (i + 1)); cbn [res_bind] in H; [| discriminate H].
      top_if H; other_block H.
    + intros Hp.
      apply (proj2 (strip_test_padded _ _ In5)) in Hp.
      rewrite (exact_anchor_not_dataset _ _ In5 Hp).
      apply str_eqb_eq in Hp. rewrite Hp. closed_eqb. reflexivity.
  - split.
    + intros H. top_if H; [other_block H |]. top_if H; [other_block H |].
      top_if H; [other_block H |]. top_if H; [other_block H |].
      top_if H; [other_block H |]. top_if H; [| other_block H].
      destruct (getitem lines (i + 1)) as [next | e]; cbn [res_bind] in H;
        [| discriminate H].
      top_if H; [| other_block H].
      split; [exact (proj1 (strip_test_padded _ _ In6) E4) |].
      exists next. split; [reflexivity | exact E5].
    + intros (Hp & next & Hn & Hsw).
      apply (proj2 (strip_test_padded _ _ In6)) in Hp.
      rewrite (exact_anchor_not_dataset _ _ In6 Hp), Hn. cbn [res_bind].
      rewrite Hsw.
      apply str_eqb_eq in Hp. rewrite Hp. closed_eqb. reflexivity.
Qed.

Lemma exact_line_rules_match_padded_anchor_witness :
  let line :=
    lit "   if (this.state.turnPlayer === 'cpu' && owner === 'player') {  " in
  game_step [line] 0 line [] = Return [line; log_cpu_turn].
Proof.
  intros line.
  refine (proj2 (proj1 (proj2 (proj2 (proj2
            (exact_line_rules_match_padded_anchor [line] 0 line line [] _))))) _).
  - vm_compute. reflexivity.
  - exists (lit "   "), (lit "  ").
    split; [by repeat constructor |]. split; [by repeat constructor |].
    vm_compute. reflexivity.
Defined.

End Matching.

(** ** Where the loop inserts *)
Section Positions.
Import Py Final.

(** C5, as the code has it. The game.js loop of add_debug_final.py does
    not stop at the first position. Its output is, in the order of the
    input, one block per input line: the line with one of the fixed
    insertions around it. For the rule without a test on a neighbouring
    line, the "CPU turn" rule, the block of every line that strips to the
    anchor is the line directly followed by the log line; so the loop adds
    as many of these log lines as there are such lines. *)
Theorem matching_lines_each_followed_by_log (lines out : list str) :
  game_loop lines lines 0 [] = Return out ->
  (exists blocks,
     out = concat blocks
     /\ Forall2
          (fun line block =>
             (exists before after,
                (before, after) ∈ insertions /\ block = before ++ line :: after)
             /\ (str_eqb (strip line) anchor_cpu_turn = true ->
                 block = [line; log_cpu_turn]))
          lines blocks)
  /\ count (str_eqb log_cpu_turn) out
     = (count (str_eqb log_cpu_turn) lines
        + count (fun l => str_eqb (strip l) anchor_cpu_turn) lines)%nat.
Proof.
  intros H. split.
  - apply (game_loop_rule
             (fun pre acc =>
                exists blocks,
                  acc = concat blocks
                  /\ Forall2
                       (fun line block =>
                          (exists before after,
                             (before, after) ∈ insertions
                             /\ block = before ++ line :: after)
                          /\ (str_eqb (strip line) anchor_cpu_turn = true ->
                              block = [line; log_cpu_turn]))
                       pre blocks)
             lines) with (rest := lines) (pre := []) (acc := []);
      [| reflexivity | exists []; split; [reflexivity | constructor] | exact H].
    clear. intros pre line rest acc out -> (blocks & -> & Hall) Hstep.
    destruct (game_step_shape _ _ _ _ _ Hstep) as (before & after & Hin & ->).
    exists (blocks ++ [before ++ line :: after]). split.
    + rewrite concat_app. cbn [concat]. by rewrite app_nil_r.
    + apply Forall2_app; [exact Hall |]. constructor; [| constructor].
      split; [by exists before, after |].
      intros Hs. destruct (getitem_prev pre rest line) as [prev Hprev].
      rewrite (cpu_turn_line_chain _ _ _ _ _ Hprev Hs) in Hstep.
      injection Hstep as Hstep. by apply app_inv_head in Hstep.
  - by apply every_matching_line_gets_insertion.
Qed.

Lemma matching_lines_each_followed_by_log_witness :
  let a := lit "if (this.state.turnPlayer === 'cpu' && owner === 'player') {" in
  let b := lit "    if (this.state.turnPlayer === 'cpu' && owner === 'player') {" in
  count (str_eqb log_cpu_turn) [a; log_cpu_turn; b; log_cpu_turn]
  = (count (str_eqb log_cpu_turn) [a; b]
     + count (fun l => str_eqb (strip l) anchor_cpu_turn) [a; b])%nat.
Proof.
  intros a b.
  refine (proj2 (matching_lines_each_followed_by_log [a; b]
                   [a; log_cpu_turn; b; log_cpu_turn] _)).
  vm_compute. reflexivity.
Defined.

End Positions.

(** ** What the substitutions of game.js replace *)
Section Gaps.
Import Py Re.

Lemma re_match_spaces_run (p : list item) (s : str) (pos : nat)
    (opens : list nat) (caps : list (nat * nat)) r :
  re_match (Spaces1 :: p) s pos opens caps = Some r ->
  exists ws rest,
    s = ws ++ rest /\ ws <> []
    /\ Forall (fun c => is_space c = true) ws
    /\ re_match p rest (pos + length ws) opens caps = Some r.
Proof.
  cbn [re_match]. revert pos. induction s as [|c s IH]; intros pos; [done |].
  destruct (is_space c) eqn:Hc; [| done].
  match goal with
  | |- context [match ?x with Some _ => _ | None => _ end] => destruct x eqn:E
  end.
  - intros [= <-]. destruct (IH _ E) as (ws & rest & -> & _ & Hws & Hm).
    exists (c :: ws), rest. cbn [length app].
    split; [reflexivity |]. split; [discriminate |]. split; [by constructor |].
    by replace (pos + S (length ws))%nat with (S pos + length ws)%nat by lia.
  - intros Hm. exists [c], s. cbn [length app].
    split; [reflexivity |]. split; [discriminate |].
    split; [by repeat constructor |].
    by replace (pos + 1)%nat with (S pos) by lia.
Qed.

Lemma re_match_any_run (p : list item) (s : str) (pos : nat)
    (opens : list nat) (caps : list (nat * nat)) r :
  re_match (AnyStar :: p) s pos opens caps = Some r ->
  exists m rest,
    s = m ++ rest /\ re_match p rest (pos + length m) opens caps = Some r.
Proof.
  cbn [re_match]. revert pos. induction s as [|c s IH]; intros pos.
  - intros Hm. exists [], []. cbn [length app]. by rewrite Nat.add_0_r.
  - destruct (c =? nl)%N.
    { intros Hm. exists [], (c :: s). cbn [length app]. by rewrite Nat.add_0_r. }
    match goal with
    | |- context [match ?x with Some _ => _ | None => _ end] => destruct x eqn:E
    end.
    + intros [= <-]. destruct (IH _ E) as (m & rest & -> & Hm).
      exists (c :: m), rest. cbn [length app]. split; [reflexivity |].
      by replace (pos + S (length m))%nat with (S pos + length m)%nat by lia.
    + intros Hm. exists [], (c :: s). cbn [length app]. by rewrite Nat.add_0_r.
Qed.

Lemma re_match_lit_run (t : str) (p : list item) (s : str) (pos : nat)
    (opens : list nat) (caps : list (nat * nat)) r :
  re_match (Lit t :: p) s pos opens caps = Some r ->
  exists rest,
    s = t ++ rest /\ re_match p rest (pos + length t) opens caps = Some r.
Proof.
  intros Hm. pose proof (re_match_lit_start _ _ _ _ _ _ _ Hm) as Hs.
  apply startswith_spec in Hs as [rest ->]. exists rest. split; [reflexivity |].
  apply re_match_lit in Hm. by rewrite drop_app_length in Hm.
Qed.

(** The text a group takes, and the match of what follows the group. *)
Lemma re_match_body_then (ok : list item -> bool) (p : list item) :
  forall s pos o caps r,
    body_then ok p = true ->
    re_match p s pos [o] caps = Some r ->
    exists g rest_s rest_p,
      s = g ++ rest_s /\ ok rest_p = true
      /\ re_match rest_p rest_s (pos + length g) [] ((o, (pos + length g)%nat) :: caps)
         = Some r.
Proof.
  induction p as [|i p IH]; intros s pos o caps r Hb Hm; [done |].
  destruct i; cbn [body_then] in Hb.
  - apply re_match_lit_run in Hm as (rest & -> & Hm).
    destruct (IH _ _ _ _ _ Hb Hm) as (g & rest_s & rest_p & -> & Hok & Hm').
    exists (t ++ g), rest_s, rest_p. rewrite length_app, <- app_assoc.
    split; [reflexivity |]. split; [exact Hok |].
    by rewrite Nat.add_assoc.
  - apply re_match_spaces_run in Hm as (ws & rest & -> & _ & _ & Hm).
    destruct (IH _ _ _ _ _ Hb Hm) as (g & rest_s & rest_p & -> & Hok & Hm').
    exists (ws ++ g), rest_s, rest_p. rewrite length_app, <- app_assoc.
    split; [reflexivity |]. split; [exact Hok |].
    by rewrite Nat.add_assoc.
  - apply re_match_any_run in Hm as (m & rest & -> & Hm).
    destruct (IH _ _ _ _ _ Hb Hm) as (g & rest_s & rest_p & -> & Hok & Hm').
    exists (m ++ g), rest_s, rest_p. rewrite length_app, <- app_assoc.
    split; [reflexivity |]. split; [exact Hok |].
    by rewrite Nat.add_assoc.
  - done.
  - exists [], s, p. cbn [length app]. rewrite Nat.add_0_r.
    split; [reflexivity |]. split; [exact Hb |]. exact Hm.
Qed.

Lemma replaces_gaps_keep (t x a b : str) :
  replaces_gaps t a b -> replaces_gaps t (x ++ a) (x ++ b).
Proof. intros H. induction x as [|c x IH]; [done |]. by constructor. Qed.

(** The scan of [re.sub] keeps a relation between the text and the result
    that holds of the empty texts, is kept by copying a character, and is
    kept by replacing a match by its expansion. *)
Lemma sub_scan_related (R : str -> str -> Prop) (p : list item)
    (tpl : list titem) :
  R [] [] ->
  (forall c a b, R a b -> R (c :: a) (c :: b)) ->
  (forall s len caps,
     re_match p s 0 [] [] = Some (len, caps) ->
     forall a b, R a b -> R (take len s ++ a) (expand tpl caps s ++ b)) ->
  forall s limit skip, R (drop skip s) (sub_scan p tpl limit skip s).
Proof.
  intros Hnil Hkeep Hcover.
  induction s as [|c s IH]; intros limit skip.
  - rewrite drop_nil. destruct skip; cbn [sub_scan]; [| exact Hnil].
    destruct (match limit with Some 0%nat => None | _ => re_match p [] 0 [] [] end)
      as [[len caps] |] eqn:Hm; [| exact Hnil].
    assert (re_match p [] 0 [] [] = Some (len, caps)) as Hm'
      by (destruct limit as [[|n] |]; done).
    specialize (Hcover _ _ _ Hm' [] [] Hnil).
    by rewrite take_nil in Hcover.
  - destruct skip as [|k]; cbn [sub_scan]; [| apply IH].
    rewrite drop_0.
    destruct (match limit with Some 0%nat => None | _ => re_match p (c :: s) 0 [] [] end)
      as [[len caps] |] eqn:Hm.
    + assert (re_match p (c :: s) 0 [] [] = Some (len, caps)) as Hm'
        by (destruct limit as [[|n] |]; done).
      destruct len as [|k].
      * apply (Hcover _ _ _ Hm' (c :: s)). apply Hkeep.
        specialize (IH (spend limit) 0%nat). by rewrite drop_0 in IH.
      * rewrite <- (take_drop (S k) (c :: s)) at 1.
        apply (Hcover _ _ _ Hm'). apply IH.
    + apply Hkeep. specialize (IH limit 0%nat). by rewrite drop_0 in IH.
Qed.

(** [re.sub] with a pattern [(...)\s+] or [(...)\s+(...)] and a template
    that gives the groups back replaces the whitespace matched by the
    [\s+] by the text of the template, and nothing else. *)
Lemma sub_replaces_gaps (p : list item) (tpl : list titem) (s : str)
    (count : nat) :
  gap_replacing p tpl = true ->
  replaces_gaps (tpl_text tpl) s (sub p tpl s count).
Proof.
  intros Hg. unfold sub. rewrite <- (drop_0 s) at 1.
  apply sub_scan_related; [constructor | by constructor |].
  clear s. intros s len caps Hm a b Hab.
  destruct p as [|[] p]; try done. cbn [re_match] in Hm.
  destruct tpl as [|[x | [|[|n]]] [|[y | m] [|[z | [|[|[|k]]]] [|]]]]; try done;
    cbn [gap_replacing] in Hg;
    destruct (re_match_body_then _ _ _ _ _ _ _ Hg Hm)
      as (g & rest_s & rest_p & -> & Hok & Hm1);
    cbn [length Nat.add] in Hm1.
  - destruct rest_p as [|[] [|]]; try done.
    apply re_match_spaces_run in Hm1 as (ws & rest & -> & Hne & Hws & Hm2).
    cbn [re_match rev app] in Hm2. injection Hm2 as <- <-.
    unfold expand, tpl_text in Hab |- *.
    cbn [flat_map group lookup list_lookup app] in Hab |- *.
    rewrite ?app_nil_r in Hab.
    rewrite ?app_nil_r, ?Nat.sub_0_r, ?drop_0.
    rewrite take_app_length.
    replace (g ++ ws ++ rest) with ((g ++ ws) ++ rest) by by rewrite <- app_assoc.
    rewrite <- length_app, take_app_length, <- !app_assoc.
    apply replaces_gaps_keep. by constructor.
  - destruct rest_p as [|[] [|[] rest_p]]; try done.
    apply re_match_spaces_run in Hm1 as (ws & rest & -> & Hne & Hws & Hm2).
    cbn [re_match] in Hm2.
    destruct (re_match_body_then _ _ _ _ _ _ _ Hok Hm2)
      as (g2 & rest2 & rest_p2 & -> & Hok2 & Hm3).
    destruct rest_p2; [| done].
    cbn [re_match rev app] in Hm3. injection Hm3 as <- <-.
    unfold expand, tpl_text in Hab |- *.
    cbn [flat_map group lookup list_lookup app] in Hab |- *.
    rewrite ?app_nil_r in Hab.
    rewrite ?app_nil_r, ?Nat.sub_0_r, ?drop_0.
    rewrite take_app_length.
    replace (length g + length ws + length g2 - (length g + length ws))%nat
      with (length g2) by lia.
    replace (drop (length g + length ws) (g ++ ws ++ g2 ++ rest2))
      with (g2 ++ rest2)
      by (replace (g ++ ws ++ g2 ++ rest2) with ((g ++ ws) ++ g2 ++ rest2)
            by (by rewrite <- app_assoc);
          by rewrite <- length_app, drop_app_length).
    rewrite take_app_length.
    replace (g ++ ws ++ g2 ++ rest2) with ((g ++ ws ++ g2) ++ rest2)
      by (by rewrite <- !app_assoc).
    replace (length g + length ws + length g2)%nat with (length (g ++ ws ++ g2))
      by (rewrite !length_app; lia).
    rewrite take_app_length, <- !app_assoc.
    apply replaces_gaps_keep. constructor; [exact Hne | exact Hws |].
    by apply replaces_gaps_keep.
Qed.

(** C6, as the code has it. [add_logs_to_game_js] of add_debug_logs.py and
    of add_debug_logs_simple.py changes the text in six steps, one per
    [re.sub]. A step whose pattern is one group around the whole match
    only inserts the text of its template: every character of the text it
    is given, whitespace included, is kept as it is and in its place. A
    step whose pattern has a [\s+] outside its groups (the first step of
    both scripts, the second and the fifth of add_debug_logs_simple.py)
    gives the groups back and puts the text of its template in the place
    of the whitespace that this [\s+] matched, at least one character
    each time; every other character, whitespace included, is kept. *)
Theorem game_subs_replace_only_matched_whitespace (content : str) :
  (exists c1 c2 c3 c4 c5,
     replaces_gaps (tpl_text Logs.game_replacement1) content c1
     /\ only_inserts (tpl_text Logs.game_replacement2) c1 c2
     /\ only_inserts (tpl_text Logs.game_replacement3) c2 c3
     /\ only_inserts (tpl_text Logs.game_replacement4) c3 c4
     /\ only_inserts (tpl_text Logs.game_replacement5) c4 c5
     /\ only_inserts (tpl_text Logs.game_replacement6) c5 (Logs.game_subs content))
  /\ (exists c1 c2 c3 c4 c5,
        replaces_gaps (tpl_text Simple.game_replacement1) content c1
        /\ replaces_gaps (tpl_text Simple.game_replacement2) c1 c2
        /\ only_inserts (tpl_text Simple.game_replacement3) c2 c3
        /\ only_inserts (tpl_text Simple.game_replacement4) c3 c4
        /\ replaces_gaps (tpl_text Simple.game_replacement5) c4 c5
        /\ only_inserts (tpl_text Simple.game_replacement6) c5
             (Simple.game_subs content)).
Proof.
  split.
  - pose (c1 := sub Logs.game_pattern1 Logs.game_replacement1 content 0).
    pose (c2 := sub Logs.game_pattern2 Logs.game_replacement2 c1 0).
    pose (c3 := sub Logs.game_pattern3 Logs.game_replacement3 c2 0).
    pose (c4 := sub Logs.game_pattern4 Logs.game_replacement4 c3 0).
    pose (c5 := sub Logs.game_pattern5 Logs.game_replacement5 c4 0).
    exists c1, c2, c3, c4, c5.
    split; [| split; [| split; [| split; [| split]]]].
    + apply (sub_replaces_gaps Logs.game_pattern1 Logs.game_replacement1 content 0).
      vm_compute. reflexivity.
    + apply (sub_only_inserts Logs.game_pattern2 Logs.game_replacement2 c1 0).
      vm_compute. reflexivity.
    + apply (sub_only_inserts Logs.game_pattern3 Logs.game_replacement3 c2 0).
      vm_compute. reflexivity.
    + apply (sub_only_inserts Logs.game_pattern4 Logs.game_replacement4 c3 0).
      vm_compute. reflexivity.
    + apply (sub_only_inserts Logs.game_pattern5 Logs.game_replacement5 c4 0).
      vm_compute. reflexivity.
    + apply (sub_only_inserts Logs.game_pattern6 Logs.game_replacement6 c5 0).
      vm_compute. reflexivity.
  - pose (c1 := sub Simple.game_pattern1 Simple.game_replacement1 content 0).
    pose (c2 := sub Simple.game_pattern2 Simple.game_replacement2 c1 1).
    pose (c3 := sub Simple.game_pattern3 Simple.game_replacement3 c2 1).
    pose (c4 := sub Simple.game_pattern4 Simple.game_replacement4 c3 0).
    pose (c5 := sub Simple.game_pattern5 Simple.game_replacement5 c4 0).
    exists c1, c2, c3, c4, c5.
    split; [| split; [| split; [| split; [| split]]]].
    + apply (sub_replaces_gaps Simple.game_pattern1 Simple.game_replacement1 content 0).
      vm_compute. reflexivity.
    + apply (sub_replaces_gaps Simple.game_pattern2 Simple.game_replacement2 c1 1).
      vm_compute. reflexivity.
    + apply (sub_only_inserts Simple.game_pattern3 Simple.game_replacement3 c2 1).
      vm_compute. reflexivity.
    + apply (sub_only_inserts Simple.game_pattern4 Simple.game_replacement4 c3 0).
      vm_compute. reflexivity.
    + apply (sub_replaces_gaps Simple.game_pattern5 Simple.game_replacement5 c4 0).
      vm_compute. reflexivity.
    + apply (sub_only_inserts Simple.game_pattern6 Simple.game_replacement6 c5 1).
      vm_compute. reflexivity.
Qed.

End Gaps.
